(** * lifeline bouncer: frame codec, session buffer and handshake

    A shallow embedding of [lifelife-bouncer.py].  Python [bytes] and
    [bytearray] are lists of bytes, Python integers are [Z], the module
    level dictionary [sessions] is a finite map from tokens to session
    objects, and session objects live in a store addressed by reference,
    because the registry, the relay tasks and the handshake handler all
    alias the same object. *)

From Stdlib Require Import ZArith NArith QArith.QArith_base QArith.Qround
  QArith.Qpower Floats.SpecFloat Lqa Strings.Byte.
From stdpp Require Import base tactics option list gmap strings.
From Equations Require Import Equations.

Set Default Proof Using "Type".
Set Warnings "-register-all".
Local Open Scope Z_scope.

(** ** Bytes and the [struct] format ["!BH"] *)

Abbreviation bytes := (list byte).

Definition byte_to_Z (b : byte) : Z := Z.of_N (Byte.to_N b).

(** [len(x)] as a Python integer. *)
Definition len {A : Type} (l : list A) : Z := Z.of_nat (length l).

(** Python exceptions that the modelled code can raise.  [NoSuchObject]
    is not a Python exception: it marks a reference outside the object
    store, which no run of the program produces. *)
Inductive exn : Type :=
| StructError
| TypeError
| AttributeError
| KeyError
| JSONDecodeError
| OSError
| NoSuchObject
| UnicodeDecodeError
| RecursionError.

Inductive result (A : Type) : Type :=
| Ok (a : A)
| Raise (e : exn).
Arguments Ok {A} a.
Arguments Raise {A} e.

(** [struct.pack("!BH", b, h)]: one unsigned byte, then an unsigned
    16-bit integer, big-endian.  Out-of-range arguments raise
    [struct.error]. *)
Definition struct_pack_BH (b h : Z) : result bytes :=
  if (0 <=? b) && (b <=? 255) && (0 <=? h) && (h <=? 65535) then
    match Byte.of_N (Z.to_N b),
          Byte.of_N (Z.to_N (Z.shiftr h 8)),
          Byte.of_N (Z.to_N (Z.land h 255)) with
    | Some x, Some hi, Some lo => Ok [x; hi; lo]
    | _, _, _ => Raise StructError
    end
  else Raise StructError.

(** [struct.unpack("!BH", hdr)] on a three-byte header. *)
Definition struct_unpack_BH (x hi lo : byte) : Z * Z :=
  (byte_to_Z x, Z.lor (Z.shiftl (byte_to_Z hi) 8) (byte_to_Z lo)).

(** ** Frame codec *)

Definition TYPE_DATA : Z := 0.
Definition TYPE_CTRL : Z := 1.

(** A decoded frame: [(frame_type, payload)]. *)
Abbreviation frame := (Z * bytes)%type.

(** [pack_frame(frame_type, payload)] *)
Definition pack_frame (frame_type : Z) (payload : bytes) : result bytes :=
  match struct_pack_BH frame_type (len payload) with
  | Ok hdr => Ok (hdr ++ payload)
  | Raise e => Raise e
  end.

(** [unpack_frames(data)].  The Python function consumes the decoded
    frames from the caller's [bytearray] in place and returns the list of
    frames; the model returns the frames together with what is left of
    [data].  Each turn of the [while] loop removes at least three bytes,
    which is the termination measure. *)
Equations? unpack_frames (data : bytes) : list frame * bytes
  by wf (length data) lt :=
  unpack_frames (x :: hi :: lo :: rest)
    with (len (x :: hi :: lo :: rest) <? 3 + snd (struct_unpack_BH x hi lo)) := {
    | true := ([], x :: hi :: lo :: rest)
    | false :=
        let length := snd (struct_unpack_BH x hi lo) in
        let payload := take (Z.to_nat length) rest in
        let r := unpack_frames (drop (Z.to_nat length) rest) in
        ((fst (struct_unpack_BH x hi lo), payload) :: fst r, snd r) };
  unpack_frames data := ([], data).
Proof. rewrite length_drop. simpl. lia. Qed.

(** The encoding of a list of frames, one after the other. *)
Fixpoint pack_frames (fs : list frame) : result bytes :=
  match fs with
  | [] => Ok []
  | f :: fs' =>
      match pack_frame (fst f) (snd f), pack_frames fs' with
      | Ok e, Ok es => Ok (e ++ es)
      | Raise e, _ => Raise e
      | _, Raise e => Raise e
      end
  end.

(** A frame as the protocol defines it: kind Data or Control, payload
    length within the two-byte length field. *)
Definition valid_frame (f : frame) : Prop :=
  (fst f = TYPE_DATA \/ fst f = TYPE_CTRL) /\ len (snd f) <= 65535.

(** Incremental decoding as the client relay loop does it: each chunk is
    appended to the carried buffer ([buf.extend(data)]), the complete
    frames are taken off its front and the rest is carried on. *)
Fixpoint decode_chunks (buf : bytes) (chunks : list bytes) : list frame * bytes :=
  match chunks with
  | [] => ([], buf)
  | c :: cs =>
      let r := unpack_frames (buf ++ c) in
      let r' := decode_chunks (snd r) cs in
      (fst r ++ fst r', snd r')
  end.

(** ** Values decoded from JSON

    What [json.loads] can return, apart from floats: the protocol's
    numbers are byte offsets, and a JSON number with a fraction or an
    exponent is outside this model. *)
Inductive pyval : Type :=
| PNone
| PBool (b : bool)
| PInt (n : Z)
| PStr (s : string)
| PList (l : list pyval)
| PDict (d : list (string * pyval)).

(** [payload.decode()] raises [UnicodeDecodeError] exactly when the
    payload is not well-formed UTF-8.  Well-formed is: a byte up to 127
    alone; a lead byte 194 to 223 with one continuation byte (128 to
    191); a lead byte 224 to 239 with two; a lead byte 240 to 244 with
    three; the byte after the lead restricted so that overlong forms,
    surrogates and code points past 1114111 are left out. *)
Definition in_range (lo hi c : Z) : bool := (lo <=? c) && (c <=? hi).

Definition second_of_three (c0 c1 : Z) : bool :=
  if c0 =? 224 then in_range 160 191 c1
  else if c0 =? 237 then in_range 128 159 c1
  else in_range 128 191 c1.

Definition second_of_four (c0 c1 : Z) : bool :=
  if c0 =? 240 then in_range 144 191 c1
  else if c0 =? 244 then in_range 128 143 c1
  else in_range 128 191 c1.

Fixpoint utf8_valid (data : bytes) : bool :=
  match data with
  | [] => true
  | b0 :: t0 =>
      let c0 := byte_to_Z b0 in
      if c0 <=? 127 then utf8_valid t0
      else
        match t0 with
        | [] => false
        | b1 :: t1 =>
            let c1 := byte_to_Z b1 in
            if in_range 194 223 c0 then in_range 128 191 c1 && utf8_valid t1
            else
              match t1 with
              | [] => false
              | b2 :: t2 =>
                  let c2 := byte_to_Z b2 in
                  if in_range 224 239 c0 then
                    second_of_three c0 c1 && in_range 128 191 c2 && utf8_valid t2
                  else
                    match t2 with
                    | [] => false
                    | b3 :: t3 =>
                        let c3 := byte_to_Z b3 in
                        in_range 240 244 c0 && second_of_four c0 c1 &&
                        in_range 128 191 c2 && in_range 128 191 c3 &&
                        utf8_valid t3
                    end
              end
        end
  end.

(** [json.loads(payload.decode())] and [json.dumps(v).encode()] are
    library code; the development is parametric in them.  [json_loads]
    answers [None] where the Python call raises.  [json_loads_error] is
    the exception with which [json.loads] itself rejects a text
    ([json.JSONDecodeError], or [RecursionError] for a text nested
    deeper than the interpreter allows at that moment); it matters only
    where the exception is not caught. *)
Class JsonCodec : Type := {
  json_loads : bytes -> option pyval;
  json_dumps : pyval -> bytes;
  json_loads_error : bytes -> exn
}.

(** The exception of [json.loads(payload.decode())] where it raises:
    that of [decode] if the payload is not UTF-8, else that of
    [json.loads]. *)
Definition loads_error `{JsonCodec} (payload : bytes) : exn :=
  if utf8_valid payload then json_loads_error payload else UnicodeDecodeError.

(** A dict is given by its items; the keys of a decoded object are
    strings and do not repeat.  [dict_get] is the item with the key. *)
Definition dict_get (d : list (string * pyval)) (key : string) : option pyval :=
  snd <$> List.find (fun kv => bool_decide (fst kv = key)) d.

Definition is_str (key : string) (v : pyval) : bool :=
  match v with
  | PStr s => bool_decide (s = key)
  | _ => false
  end.

(** [key in msg] for a string [key]: key membership for a dict, element
    membership for a list, substring test for a string, [TypeError] for
    the values that are not containers. *)
Definition py_in (key : string) (msg : pyval) : result bool :=
  match msg with
  | PDict d => Ok (bool_decide (is_Some (dict_get d key)))
  | PList l => Ok (existsb (is_str key) l)
  | PStr s => Ok (bool_decide (is_Some (String.index 0 key s)))
  | PNone | PBool _ | PInt _ => Raise TypeError
  end.

(** [msg[key]] for a string [key], evaluated only after [key in msg]
    answered true. *)
Definition py_getitem (msg : pyval) (key : string) : result pyval :=
  match msg with
  | PDict d => match dict_get d key with
               | Some v => Ok v
               | None => Raise KeyError
               end
  | _ => Raise TypeError
  end.

(** [msg.get(key)]: lists and strings have no [get]. *)
Definition py_get (msg : pyval) (key : string) : result pyval :=
  match msg with
  | PDict d => Ok (default PNone (dict_get d key))
  | _ => Raise AttributeError
  end.

(** The integer a value stands for in a comparison or a subtraction with
    an [int]; [bool] is a subclass of [int].  The other values raise
    [TypeError] there. *)
Definition as_int (v : pyval) : result Z :=
  match v with
  | PInt n => Ok n
  | PBool b => Ok (if b then 1 else 0)
  | _ => Raise TypeError
  end.

(** [chunk[skip:]], with Python's reading of a negative index. *)
Definition py_slice_from {A : Type} (skip : Z) (chunk : list A) : list A :=
  if skip <? 0 then drop (Z.to_nat (Z.max 0 (len chunk + skip))) chunk
  else drop (Z.to_nat skip) chunk.

(** ** The world: sessions, registry, connections *)

Definition BUFFER_LIMIT : Z := 65536.

(** References to [Session] objects, and the two kinds of stream
    endpoints: those of a client connection and those of the upstream
    (MUD) connection. *)
Abbreviation addr := nat.
Abbreviation client_conn := nat.
Abbreviation mud_conn := nat.

Inductive task : Type :=
| ReadMud (self : addr)
| ReadClient (self : addr) (reader : client_conn).

Record Session : Type := mkSession {
  session_id : string;
  buffer : list bytes;
  ack_offset : pyval;
  total_bytes : Z;
  client_writer : option client_conn;
  mud_reader : option mud_conn;
  mud_writer : option mud_conn;
  last_active : Q;
  mud_task : option task
}.

Definition set_buffer (v : list bytes) (s : Session) : Session :=
  mkSession (session_id s) v (ack_offset s) (total_bytes s) (client_writer s)
            (mud_reader s) (mud_writer s) (last_active s) (mud_task s).
Definition set_ack_offset (v : pyval) (s : Session) : Session :=
  mkSession (session_id s) (buffer s) v (total_bytes s) (client_writer s)
            (mud_reader s) (mud_writer s) (last_active s) (mud_task s).
Definition set_total_bytes (v : Z) (s : Session) : Session :=
  mkSession (session_id s) (buffer s) (ack_offset s) v (client_writer s)
            (mud_reader s) (mud_writer s) (last_active s) (mud_task s).
Definition set_client_writer (v : option client_conn) (s : Session) : Session :=
  mkSession (session_id s) (buffer s) (ack_offset s) (total_bytes s) v
            (mud_reader s) (mud_writer s) (last_active s) (mud_task s).
Definition set_mud_reader (v : option mud_conn) (s : Session) : Session :=
  mkSession (session_id s) (buffer s) (ack_offset s) (total_bytes s) (client_writer s)
            v (mud_writer s) (last_active s) (mud_task s).
Definition set_mud_writer (v : option mud_conn) (s : Session) : Session :=
  mkSession (session_id s) (buffer s) (ack_offset s) (total_bytes s) (client_writer s)
            (mud_reader s) v (last_active s) (mud_task s).
Definition set_last_active (v : Q) (s : Session) : Session :=
  mkSession (session_id s) (buffer s) (ack_offset s) (total_bytes s) (client_writer s)
            (mud_reader s) (mud_writer s) v (mud_task s).
Definition set_mud_task (v : option task) (s : Session) : Session :=
  mkSession (session_id s) (buffer s) (ack_offset s) (total_bytes s) (client_writer s)
            (mud_reader s) (mud_writer s) (last_active s) v.

(** What the program does to the outside, in the order it does it.
    [write] followed by [drain] is one event. *)
Inductive event : Type :=
| ClientWrite (w : client_conn) (data : bytes)
| ClientClose (w : client_conn)
| MudWrite (m : mud_conn) (data : bytes)
| MudClose (m : mud_conn)
| CreateTask (t : task).

Record World : Type := mkWorld {
  sessions : gmap string addr;   (* the module-level dict [sessions] *)
  heap : list Session;           (* the Session objects, by reference *)
  trace : list event;            (* oldest event first *)
  clock : Q                      (* what [time.time()] answers *)
}.

(** ** State and exceptions

    A coroutine is run from one suspension to its end without other
    tasks in between; an exception leaves the state as it was when it was
    raised.  Writing to, draining and closing a stream are taken to
    succeed; what is read from a stream is an input of the run. *)
Definition M (A : Type) : Type := World -> result A * World.

#[export] Instance M_ret : MRet M := fun A a w => (Ok a, w).
#[export] Instance M_bind : MBind M := fun A B k m w =>
  match m w with
  | (Ok a, w') => k a w'
  | (Raise e, w') => (Raise e, w')
  end.

Definition raise {A : Type} (e : exn) : M A := fun w => (Raise e, w).

Definition lift {A : Type} (r : result A) : M A := fun w => (r, w).

(** [try: m  except Exception: h] *)
Definition try_except {A : Type} (m : M A) (h : M A) : M A := fun w =>
  match m w with
  | (Ok a, w') => (Ok a, w')
  | (Raise _, w') => h w'
  end.

Definition deref (self : addr) : M Session := fun w =>
  match heap w !! self with
  | Some s => (Ok s, w)
  | None => (Raise NoSuchObject, w)
  end.

(** The world after [f] was applied to the object at [self], and the
    world after the events [es] took place. *)
Definition store (self : addr) (f : Session -> Session) (w : World) : World :=
  mkWorld (sessions w) (alter f self (heap w)) (trace w) (clock w).

Definition log (es : list event) (w : World) : World :=
  mkWorld (sessions w) (heap w) (trace w ++ es) (clock w).

(** The world with the object at [self] replaced by [s]. *)
Definition put (self : addr) (s : Session) (w : World) : World :=
  mkWorld (sessions w) (<[self := s]> (heap w)) (trace w) (clock w).

(** [self.field = v] *)
Definition setattr (self : addr) (f : Session -> Session) : M unit := fun w =>
  (Ok tt, store self f w).

Definition emit (e : event) : M unit := fun w => (Ok tt, log [e] w).

Definition time_time : M Q := fun w => (Ok (clock w), w).

(** [Session(session_id)]: a new object in the store. *)
Definition Session_init (session_id : string) : M addr := fun w =>
  let s := mkSession session_id [] (PInt 0) 0 None None None (clock w) None in
  (Ok (length (heap w)),
   mkWorld (sessions w) (heap w ++ [s]) (trace w) (clock w)).

(** [sessions[session_id] = session] *)
Definition sessions_set (session_id : string) (session : addr) : M unit := fun w =>
  (Ok tt, mkWorld (<[session_id := session]> (sessions w)) (heap w) (trace w) (clock w)).

(** [sessions.get(token)]: every key of the registry is a string; a
    list or a dict is unhashable. *)
Definition sessions_get (token : pyval) : M (option addr) := fun w =>
  match token with
  | PStr t => (Ok (sessions w !! t), w)
  | PNone | PBool _ | PInt _ => (Ok None, w)
  | PList _ | PDict _ => (Raise TypeError, w)
  end.

(** ** Session *)

Definition sum_len (buffer : list bytes) : Z :=
  foldr (fun chunk acc => len chunk + acc) 0 buffer.

(** The offset of the first retained byte:
    [total_bytes - sum(len(c) for c in buffer)]. *)
Definition window_start (s : Session) : Z := total_bytes s - sum_len (buffer s).

(** The payloads of the Data frames that the replay loop of
    [attach_client] sends for a supplied offset (see [replay_from]). *)
Fixpoint replay_payloads (skip : Z) (chunks : list bytes) : list bytes :=
  match chunks with
  | [] => []
  | chunk :: rest =>
      if len chunk <=? skip then replay_payloads (skip - len chunk) rest
      else py_slice_from skip chunk :: replay_payloads 0 rest
  end.

(** A chunk as one [read(1024)] of the upstream delivers it. *)
Definition read_chunk (chunk : bytes) : Prop := 0 < len chunk <= 1024.

(** The buffer of [s] holds the bytes [[window_start, total_bytes)] of
    [stream], everything the upstream has sent so far. *)
Definition represents (s : Session) (stream : bytes) : Prop :=
  len stream = total_bytes s /\
  concat (buffer s) = drop (Z.to_nat (window_start s)) stream.

Section Bouncer.
Context {codec : JsonCodec}.

(** [Session._send_to_client] *)
Definition _send_to_client (self : addr) (frame_type : Z) (data : bytes) : M unit :=
  s ← deref self;
  match client_writer s with
  | Some w =>
      f ← lift (pack_frame frame_type data);
      emit (ClientWrite w f)
  | None => mret tt
  end.

(** The eviction loop of [_append_buffer]:
    [while sum(len(chunk) for chunk in self.buffer) > BUFFER_LIMIT:
       self.buffer.popleft()]. *)
Fixpoint evict (buffer : list bytes) : list bytes :=
  match buffer with
  | [] => []
  | chunk :: rest =>
      if sum_len (chunk :: rest) >? BUFFER_LIMIT then evict rest
      else chunk :: rest
  end.

(** [Session._append_buffer] *)
Definition _append_buffer (self : addr) (data : bytes) : M unit :=
  s ← deref self;
  setattr self (set_total_bytes (total_bytes s + len data));;
  setattr self (set_buffer (buffer s ++ [data]));;
  s ← deref self;
  setattr self (set_buffer (evict (buffer s))).

(** The loop of [_trim_buffer]:
    [while self.buffer and
           current_offset + len(self.buffer[0]) <= self.ack_offset:
       current_offset += len(self.buffer.popleft())].
    It answers the buffer it leaves, also when the comparison raises. *)
Fixpoint trim_loop (ack : pyval) (current_offset : Z) (buffer : list bytes)
  : result unit * list bytes :=
  match buffer with
  | [] => (Ok tt, [])
  | chunk :: rest =>
      match as_int ack with
      | Ok a =>
          if current_offset + len chunk <=? a
          then trim_loop ack (current_offset + len chunk) rest
          else (Ok tt, chunk :: rest)
      | Raise e => (Raise e, chunk :: rest)
      end
  end.

(** [Session._trim_buffer] *)
Definition _trim_buffer (self : addr) : M unit :=
  s ← deref self;
  let current_offset := total_bytes s - sum_len (buffer s) in
  let r := trim_loop (ack_offset s) current_offset (buffer s) in
  setattr self (set_buffer (snd r));;
  lift (fst r).

(** The session after [_append_buffer(data)], and after a control
    message with member [ack] read at time [now]. *)
Definition appended (data : bytes) (s : Session) : Session :=
  set_buffer (evict (buffer s ++ [data]))
    (set_total_bytes (total_bytes s + len data) s).

Definition acked (ack : pyval) (now : Q) (s : Session) : Session :=
  set_last_active now
    (set_buffer (snd (trim_loop ack (window_start s) (buffer s)))
       (set_ack_offset ack s)).

(** The session once [attach_client] has taken [writer] at time [now]. *)
Definition attached (writer : client_conn) (now : Q) (s : Session) : Session :=
  set_last_active now (set_client_writer (Some writer) s).

(** [Session._handle_control] *)
Definition _handle_control (self : addr) (payload : bytes) : M unit :=
  match json_loads payload with
  | None => mret tt
  | Some msg =>
      has_ack ← lift (py_in "ack" msg);
      (if has_ack : bool then
         ack ← lift (py_getitem msg "ack");
         setattr self (set_ack_offset ack);;
         _trim_buffer self
       else mret tt);;
      now ← time_time;
      setattr self (set_last_active now)
  end.

(** [Session._handle_mud_disconnect] *)
Definition _handle_mud_disconnect (self : addr) (error : string) : M unit :=
  s ← deref self;
  match client_writer s with
  | Some w =>
      try_except
        (_send_to_client self TYPE_CTRL (json_dumps (PDict [("error", PStr error)])))
        (mret tt);;
      emit (ClientClose w)
  | None => mret tt
  end;;
  s ← deref self;
  match mud_writer s with
  | Some m =>
      emit (MudClose m);;
      setattr self (set_mud_writer None)
  | None => mret tt
  end.

(** The replay loop of [attach_client] for a supplied offset:
    [for chunk in self.buffer:
       if skip >= len(chunk): skip -= len(chunk); continue
       await self._send_to_client(TYPE_DATA, chunk[skip:]); skip = 0]. *)
Fixpoint replay_from (self : addr) (skip : Z) (chunks : list bytes) : M unit :=
  match chunks with
  | [] => mret tt
  | chunk :: rest =>
      if len chunk <=? skip then replay_from self (skip - len chunk) rest
      else
        _send_to_client self TYPE_DATA (py_slice_from skip chunk);;
        replay_from self 0 rest
  end.

(** The full replay: [for chunk in self.buffer: send(TYPE_DATA, chunk)]. *)
Fixpoint replay_all (self : addr) (chunks : list bytes) : M unit :=
  match chunks with
  | [] => mret tt
  | chunk :: rest =>
      _send_to_client self TYPE_DATA chunk;;
      replay_all self rest
  end.

(** [Session.attach_client].  [resume_offset] is [PNone] when the caller
    gives none. *)
Definition attach_client (self : addr) (reader writer : client_conn)
    (resume_offset : pyval) : M unit :=
  setattr self (set_client_writer (Some writer));;
  now ← time_time;
  setattr self (set_last_active now);;
  s ← deref self;
  match mud_reader s, mud_writer s with
  | Some _, Some _ =>
      _send_to_client self TYPE_CTRL
        (json_dumps (PDict [("session", PStr (session_id s))]));;
      match resume_offset with
      | PNone => replay_all self (buffer s)
      | _ =>
          offset ← lift (as_int resume_offset);
          if offset <? total_bytes s then
            let skip := offset - (total_bytes s - sum_len (buffer s)) in
            replay_from self skip (buffer s)
          else mret tt
      end;;
      emit (CreateTask (ReadClient self reader))
  | _, _ => _handle_mud_disconnect self "Connection refused"
  end.

(** How [asyncio.open_connection] ends. *)
Inductive dial_outcome : Type :=
| DialOk (reader writer : mud_conn)
| DialRefused                        (* ConnectionRefusedError *)
| DialError.                         (* any other exception *)

(** [Session.connect_to_mud] *)
Definition connect_to_mud (self : addr) (dial : dial_outcome) : M unit :=
  match dial with
  | DialOk reader writer =>
      setattr self (set_mud_reader (Some reader));;
      setattr self (set_mud_writer (Some writer))
  | DialRefused => mret tt
  | DialError => raise OSError
  end;;
  emit (CreateTask (ReadMud self));;
  setattr self (set_mud_task (Some (ReadMud self))).

(** One turn of a [while True] loop: go on, or [break]. *)
Inductive loop_ctl : Type := Continue | Break.

(** What [await reader.read(1024)] gives: bytes (none at end of stream)
    or an exception. *)
Inductive read_outcome : Type :=
| ReadBytes (data : bytes)
| ReadError.

(** One turn of the loop of [Session._read_mud]. *)
Definition _read_mud_turn (self : addr) (r : read_outcome) : M loop_ctl :=
  s ← deref self;
  match mud_reader s with
  | None => raise AttributeError
  | Some _ =>
      match r with
      | ReadError => raise OSError
      | ReadBytes [] =>
          _handle_mud_disconnect self "Connection lost";;
          mret Break
      | ReadBytes data =>
          _append_buffer self data;;
          _send_to_client self TYPE_DATA data;;
          mret Continue
      end
  end.

(** [Session._read_mud] on the successive results of
    [self.mud_reader.read]: the loop runs until it breaks, an exception
    ends it, or [reads] is used up. *)
Fixpoint _read_mud (self : addr) (reads : list read_outcome) : M unit :=
  match reads with
  | [] => mret tt
  | r :: reads' =>
      c ← _read_mud_turn self r;
      match c with
      | Break => mret tt
      | Continue => _read_mud self reads'
      end
  end.

(** The body of the [for] loop of [_read_client] for one frame. *)
Definition on_client_frame (self : addr) (f : frame) : M unit :=
  if fst f =? TYPE_DATA then
    s ← deref self;
    match mud_writer s with
    | Some m => emit (MudWrite m (snd f))
    | None => raise AttributeError
    end
  else if fst f =? TYPE_CTRL then _handle_control self (snd f)
  else mret tt.

Fixpoint for_frames (self : addr) (frames : list frame) : M unit :=
  match frames with
  | [] => mret tt
  | f :: rest => on_client_frame self f;; for_frames self rest
  end.

(** [Session._read_client] on the successive results of [reader.read]:
    the loop runs until it breaks or [reads] is used up.  [buf] is the
    loop's local [bytearray]. *)
Fixpoint _read_client_loop (self : addr) (buf : bytes) (reads : list bytes) : M unit :=
  match reads with
  | [] => mret tt
  | [] :: _ => setattr self (set_client_writer None)
  | data :: reads' =>
      let r := unpack_frames (buf ++ data) in
      for_frames self (fst r);;
      _read_client_loop self (snd r) reads'
  end.

(** The task starts from [buf = bytearray()]. *)
Definition _read_client (self : addr) (reads : list bytes) : M unit :=
  _read_client_loop self [] reads.

(** ** Handshake *)

(** [s] between double quotes. *)
Definition quoted (s : string) : bytes :=
  [x22] ++ String.list_byte_of_string s ++ [x22].

(** The byte strings of the two literal error payloads,
    [{"error":"Missing control frame"}] and [{"error":"Invalid session"}]. *)
Definition error_literal (reason : string) : bytes :=
  String.list_byte_of_string "{" ++ quoted "error" ++
  String.list_byte_of_string ":" ++ quoted reason ++
  String.list_byte_of_string "}".

(** [writer.write(pack_frame(TYPE_CTRL, literal)); await writer.drain();
    writer.close()] *)
Definition reject (writer : client_conn) (reason : string) : M unit :=
  f ← lift (pack_frame TYPE_CTRL (error_literal reason));
  emit (ClientWrite writer f);;
  emit (ClientClose writer).

(** [handle_client(reader, writer)].  The environment supplies what the
    first [reader.read(1024)] returns ([data]), the token that
    [uuid.uuid4().hex] mints ([session_id]) and how the dial ends.  The
    exception of [json.loads(frames[0][1].decode())] is not caught
    here. *)
Definition handle_client (reader writer : client_conn) (data : bytes)
    (session_id : string) (dial : dial_outcome) : M unit :=
  let buf := data in
  let frames := fst (unpack_frames buf) in
  match frames with
  | (frame_type, payload) :: _ =>
      if negb (frame_type =? TYPE_CTRL) then reject writer "Missing control frame"
      else
        match json_loads payload with
        | None => raise (loads_error payload)
        | Some msg =>
            has_resume ← lift (py_in "resume" msg);
            if has_resume : bool then
              token ← lift (py_getitem msg "resume");
              session ← sessions_get token;
              match session with
              | Some session =>
                  ack ← lift (py_get msg "ack");
                  attach_client session reader writer ack
              | None => reject writer "Invalid session"
              end
            else
              session ← Session_init session_id;
              sessions_set session_id session;;
              connect_to_mud session dial;;
              attach_client session reader writer PNone
        end
  | [] => reject writer "Missing control frame"
  end.

End Bouncer.

(** ** Runs that never write to the upstream *)

Definition no_mud_write (e : event) : Prop :=
  match e with
  | MudWrite _ _ => False
  | _ => True
  end.

(** Whatever the world and however the run ends, it only adds events,
    and none of them writes to the upstream connection. *)
Definition quiet {A : Type} (m : M A) : Prop :=
  forall w, exists es, trace (snd (m w)) = trace w ++ es /\ Forall no_mud_write es.

(** ** Runs confined to one session *)

(** Whatever the world and however the run ends, it leaves the
    registry, the clock, the number of session objects and every
    session object other than the one at [self] as they were. *)
Definition confined {A : Type} (self : addr) (m : M A) : Prop :=
  forall w,
    sessions (snd (m w)) = sessions w /\
    clock (snd (m w)) = clock w /\
    length (heap (snd (m w))) = length (heap w) /\
    forall a, a <> self -> heap (snd (m w)) !! a = heap w !! a.

(** ** Clock readings and their difference

    [time.time()] returns a binary64 float.  A clock reading is held as
    the rational number the float denotes, and [now - last_active] is
    the float subtraction: the exact difference rounded to 53
    significant bits, to nearest and ties to even.  The exponent range
    is not modelled: a difference of two binary64 numbers that falls in
    the subnormal range is exact, and one that overflows compares with
    an integer as its unbounded rounding does. *)

(** The integer part of the base-2 logarithm of a positive rational. *)
Definition Qlog2 (q : Q) : Z :=
  let k := Z.log2 (Qnum q) - Z.log2 (Z.pos (Qden q)) in
  if Qle_bool (2 ^ k) q then k else k - 1.

(** The nearest integer, ties to the even one. *)
Definition round_half_even (q : Q) : Z :=
  let f := Qfloor q in
  match Qcompare (q - inject_Z f) (1 # 2) with
  | Lt => f
  | Gt => f + 1
  | Eq => if Z.even f then f else f + 1
  end.

(** The nearest number with a significand of 53 bits. *)
Definition round_binary64 (q : Q) : Q :=
  match Qcompare q 0 with
  | Eq => 0%Q
  | Gt => let e := Qlog2 q - 52 in
          (inject_Z (round_half_even (q / 2 ^ e)) * 2 ^ e)%Q
  | Lt => let e := Qlog2 (- q) - 52 in
          (- (inject_Z (round_half_even (- q / 2 ^ e)) * 2 ^ e))%Q
  end.

(** [a - b] on floats. *)
Definition float_sub (a b : Q) : Q := round_binary64 (a - b).

(** [x > n] for a float [x] and an integer [n]: Python compares the two
    values exactly. *)
Definition float_gt_int (x : Q) (n : Z) : bool := negb (Qle_bool x (inject_Z n)).

(** The rational that a finite binary64 number of the Standard
    Library's specification of IEEE 754 denotes. *)
Definition SF2Q (f : spec_float) : Q :=
  match f with
  | S754_finite s m e =>
      ((if s then -1 else 1) * inject_Z (Z.pos m) * 2 ^ e)%Q
  | _ => 0%Q
  end.

(** ** The idle reaper *)

Definition SESSION_TIMEOUT : Z := 600.

(** [sessions.pop(sid)] *)
Definition sessions_pop (sid : string) : M addr := fun w =>
  match sessions w !! sid with
  | Some a =>
      (Ok a, mkWorld (delete sid (sessions w)) (heap w) (trace w) (clock w))
  | None => (Raise KeyError, w)
  end.

(** [[sid for sid, s in sessions.items()
          if now - s.last_active > SESSION_TIMEOUT]], where [items] is what
    [sessions.items()] yields, in the order the dict yields it (the
    finite map does not record that order). *)
Fixpoint to_remove (now : Q) (items : list (string * addr)) : M (list string) :=
  match items with
  | [] => mret []
  | (sid, a) :: rest =>
      s ← deref a;
      tl ← to_remove now rest;
      mret (if float_gt_int (float_sub now (last_active s)) SESSION_TIMEOUT
            then sid :: tl else tl)
  end.

(** [for sid in to_remove:
       sess = sessions.pop(sid)
       if sess.mud_writer: sess.mud_writer.close()] *)
Fixpoint reap (sids : list string) : M unit :=
  match sids with
  | [] => mret tt
  | sid :: rest =>
      a ← sessions_pop sid;
      sess ← deref a;
      match mud_writer sess with
      | Some m => emit (MudClose m)
      | None => mret tt
      end;;
      reap rest
  end.

(** One turn of the loop of [cleanup_sessions], up to its [sleep]. *)
Definition cleanup_sessions_turn (items : list (string * addr)) : M unit :=
  now ← time_time;
  sids ← to_remove now items;
  reap sids.

(** Whether the session object at [a] is idle at time [now]; and the
    close of its upstream writer, if it has one. *)
Definition idle_at (now : Q) (w : World) (a : addr) : bool :=
  match heap w !! a with
  | Some s => float_gt_int (float_sub now (last_active s)) SESSION_TIMEOUT
  | None => false
  end.

Definition close_of (w : World) (a : addr) : option event :=
  s ← heap w !! a; MudClose <$> mud_writer s.

(** ** A codec and a run for concrete examples *)

Definition text (s : string) : bytes := String.list_byte_of_string s.

(** The texts [{}], [{"new": true}], [{"ack": n}] and
    [{"resume": "token", "ack": n}]. *)
Definition empty_text : bytes := text "{}".
Definition new_text : bytes := text "{" ++ quoted "new" ++ text ": true}".
Definition ack_text (n : string) : bytes :=
  text "{" ++ quoted "ack" ++ text ": " ++ text n ++ text "}".
Definition resume_text (token n : string) : bytes :=
  text "{" ++ quoted "resume" ++ text ": " ++ quoted token ++ text ", " ++
  quoted "ack" ++ text ": " ++ text n ++ text "}".

Definition demo_token : string := "3f2b8c1d9e4a4f6ab0c7d5e8f1a2b3c4".

(** The payloads that the examples send, each with the value that
    [json.loads] gives for it. *)
Definition demo_payloads : list (bytes * pyval) :=
  [ (empty_text, PDict []);
    (new_text, PDict [("new", PBool true)]);
    (ack_text "50", PDict [("ack", PInt 50)]);
    (ack_text "30", PDict [("ack", PInt 30)]);
    (ack_text "15", PDict [("ack", PInt 15)]);
    (resume_text demo_token "5",
     PDict [("resume", PStr demo_token); ("ack", PInt 5)]);
    (resume_text demo_token "15",
     PDict [("resume", PStr demo_token); ("ack", PInt 15)]) ].

Definition bytes_eqb (a b : bytes) : bool :=
  bool_decide (Byte.to_N <$> a = Byte.to_N <$> b).

Definition demo_loads (payload : bytes) : option pyval :=
  snd <$> List.find (fun kv => bytes_eqb (fst kv) payload) demo_payloads.

(** [json.dumps] on a dict with one string member, the only shape the
    program encodes; the strings it encodes there need no escaping.
    Other values are given the empty byte string. *)
Definition demo_dumps (v : pyval) : bytes :=
  match v with
  | PDict [(key, PStr value)] =>
      text "{" ++ quoted key ++ text ": " ++ quoted value ++ text "}"
  | _ => []
  end.

(** A codec that agrees with [json.loads] on [demo_payloads] and with
    [json.dumps] on the messages the program sends; it instantiates the
    general statements at concrete inputs. *)
Definition demo_codec : JsonCodec :=
  {| json_loads := demo_loads; json_dumps := demo_dumps;
     json_loads_error := fun _ => JSONDecodeError |}.

(** The bytes of a frame whose payload fits the length field. *)
Definition frame_of (frame_type : Z) (payload : bytes) : bytes :=
  match pack_frame frame_type payload with
  | Ok f => f
  | Raise _ => []
  end.

(** The world a run ends in. *)
Definition exec {A : Type} (m : M A) (w : World) : World := snd (m w).

(** [count] bytes whose values are [start], [start + 1], ... *)
Definition octets (start count : nat) : bytes :=
  (fun i => default x00 (Byte.of_N (N.of_nat i))) <$> seq start count.

Definition world0 : World := mkWorld ∅ [] [] 0%Q.

(** A client (connection 1) opens a session; the dial succeeds
    (upstream connection 7). *)
Definition world_opened : World := Eval vm_compute in
  exec (handle_client (codec := demo_codec) 1 1 (frame_of TYPE_CTRL new_text)
          demo_token (DialOk 7 7)) world0.

(** The upstream sends thirty bytes in three reads of ten. *)
Definition world_fed : World := Eval vm_compute in
  exec (_read_mud_turn (codec := demo_codec) 0 (ReadBytes (octets 20 10)))
    (exec (_read_mud_turn (codec := demo_codec) 0 (ReadBytes (octets 10 10)))
       (exec (_read_mud_turn (codec := demo_codec) 0 (ReadBytes (octets 0 10)))
          world_opened)).

(** Thirty more bytes arrive: sixty in all. *)
Definition world_fed60 : World := Eval vm_compute in
  exec (_read_mud_turn (codec := demo_codec) 0 (ReadBytes (octets 50 10)))
    (exec (_read_mud_turn (codec := demo_codec) 0 (ReadBytes (octets 40 10)))
       (exec (_read_mud_turn (codec := demo_codec) 0 (ReadBytes (octets 30 10)))
          world_fed)).

(** The session token frame that a client of the example run is sent. *)
Definition demo_token_frame : bytes :=
  frame_of TYPE_CTRL (demo_dumps (PDict [("session", PStr demo_token)])).

(** The client acknowledges offset 15, then its connection ends. *)
Definition world_acked : World := Eval vm_compute in
  exec (_read_client (codec := demo_codec) 0
          [frame_of TYPE_CTRL (ack_text "15"); []]) world_fed.

(** Then the upstream reaches end-of-stream. *)
Definition world_lost : World := Eval vm_compute in
  exec (_read_mud_turn (codec := demo_codec) 0 (ReadBytes [])) world_acked.

(** ** Further example data *)

(** A session whose buffer is exactly full: sixty-four chunks of 1024
    bytes, none acknowledged, upstream connection 7 open, no client. *)
Definition full_session : Session :=
  mkSession demo_token (replicate 64 (replicate 1024 x00)) (PInt 0) 65536
    None (Some 7%nat) (Some 7%nat) 0%Q (Some (ReadMud 0)).

Definition world_full : World :=
  mkWorld (<[demo_token := 0%nat]> ∅) [full_session] [] 0%Q.

(** More payloads with the values [json.loads] gives for them:
    [{"ack": null}], [{"ping": true}], the number [7], and resume
    requests without [ack] for the example token and for a token
    nobody holds.  Any payload in neither table counts as one that
    [json.loads] rejects. *)
Definition other_token : string := "00000000000000000000000000000000".

Definition resume_only_text (token : string) : bytes :=
  text "{" ++ quoted "resume" ++ text ": " ++ quoted token ++ text "}".

Definition more_payloads : list (bytes * pyval) :=
  [ (ack_text "null", PDict [("ack", PNone)]);
    (text "{" ++ quoted "ping" ++ text ": true}", PDict [("ping", PBool true)]);
    (text "7", PInt 7);
    (resume_only_text demo_token, PDict [("resume", PStr demo_token)]);
    (resume_only_text other_token, PDict [("resume", PStr other_token)]) ].

Definition more_loads (payload : bytes) : option pyval :=
  match demo_loads payload with
  | Some v => Some v
  | None =>
      snd <$> List.find (fun kv => bytes_eqb (fst kv) payload) more_payloads
  end.

Definition more_codec : JsonCodec :=
  {| json_loads := more_loads; json_dumps := demo_dumps;
     json_loads_error := fun _ => JSONDecodeError |}.

(** The empty world with one session object just created. *)
Definition world_fresh : World := Eval vm_compute in
  exec (Session_init demo_token) world0.

(** The floats nearest to 600.1 and to 0.1. *)
Definition float_600_1 : Q := 5278535422627021 # 8796093022208.
Definition float_0_1 : Q := 7205759403792794 # 72057594037927936.

(** The example world (its session was last active at time 0) when the
    clock reads the float 0.1 and a second client opens a second
    session; the same world when the clock reads the float 600.1; and
    that world after one sweep of the reaper. *)
Definition at_time (now : Q) (w : World) : World :=
  mkWorld (sessions w) (heap w) (trace w) now.

Definition world_two : World := Eval vm_compute in
  at_time float_600_1
    (exec (handle_client (codec := demo_codec) 3 3 (frame_of TYPE_CTRL new_text)
             other_token (DialOk 8 8)) (at_time float_0_1 world_fed)).

Definition world_swept : World := Eval vm_compute in
  exec (cleanup_sessions_turn [(demo_token, 0%nat); (other_token, 1%nat)]) world_two.

(** Pairs of binary64 numbers, among them the floats nearest to 600.1
    and 0.1, two pairs whose exact difference is halfway between two
    binary64 numbers, a pair of subnormal numbers and readings of a
    clock in seconds since 1970. *)
Definition float_examples : list (spec_float * spec_float) :=
  [ (S754_finite false 5278535422627021 (-43), S754_finite false 7205759403792794 (-56));
    (S754_finite false 7130319317630976 (-22), S754_finite false 7130316800524288 (-22));
    (S754_finite false 5277655813324801 (-43), S754_finite false 4503599627370496 (-96));
    (S754_finite false 5277655813324802 (-43), S754_finite false 4503599627370496 (-96));
    (S754_finite false 3 (-1074), S754_finite false 1 (-1074));
    (S754_finite false 7205759403792794 (-56), S754_finite false 5278535422627021 (-43));
    (S754_finite false 7391076682746875 (-22), S754_finite false 7391074166164056 (-22));
    (S754_finite false 8000000000000004 (-3), S754_finite false 5404319552844595 (-54)) ].

(** * Properties *)

(** ** Bytes and headers *)

Lemma byte_to_Z_range (b : byte) : 0 <= byte_to_Z b <= 255.
Proof.
  unfold byte_to_Z. pose proof (Byte.to_N_bounded b) as H.
  lia.
Qed.

Lemma byte_of_Z_some (z : Z) :
  0 <= z <= 255 -> exists b, Byte.of_N (Z.to_N z) = Some b /\ byte_to_Z b = z.
Proof.
  intros Hz. destruct (Byte.of_N (Z.to_N z)) as [b|] eqn:E.
  - exists b. split; [done|]. apply Byte.to_of_N in E. unfold byte_to_Z. lia.
  - apply Byte.of_N_None_iff in E. lia.
Qed.

Lemma byte_of_to_Z (b : byte) : Byte.of_N (Z.to_N (byte_to_Z b)) = Some b.
Proof. unfold byte_to_Z. rewrite N2Z.id. apply Byte.of_to_N. Qed.

Lemma be16_hi (hi lo : Z) :
  0 <= hi -> 0 <= lo <= 255 -> Z.shiftr (Z.lor (Z.shiftl hi 8) lo) 8 = hi.
Proof.
  intros Hhi Hlo. rewrite Z.shiftr_lor, Z.shiftr_shiftl_l by lia.
  rewrite Z.sub_diag, Z.shiftl_0_r, Z.shiftr_div_pow2 by lia.
  rewrite (Z.div_small lo) by (change (2 ^ 8) with 256; lia).
  apply Z.lor_0_r.
Qed.

Lemma be16_lo (hi lo : Z) :
  0 <= hi -> 0 <= lo <= 255 -> Z.land (Z.lor (Z.shiftl hi 8) lo) 255 = lo.
Proof.
  intros Hhi Hlo. change 255 with (Z.ones 8).
  rewrite Z.land_lor_distr_l, !Z.land_ones by lia.
  rewrite Z.shiftl_mul_pow2, Z.mod_mul by lia.
  rewrite Z.mod_small by (change (2 ^ 8) with 256; lia). apply Z.lor_0_l.
Qed.

Lemma be16_split (h : Z) :
  0 <= h -> Z.lor (Z.shiftl (Z.shiftr h 8) 8) (Z.land h 255) = h.
Proof.
  intros Hh. change 255 with (Z.ones 8).
  rewrite <- Z.ldiff_ones_r by lia. apply Z.lor_ldiff_and.
Qed.

Lemma be16_range (hi lo : byte) :
  0 <= Z.lor (Z.shiftl (byte_to_Z hi) 8) (byte_to_Z lo) <= 65535.
Proof.
  pose proof (byte_to_Z_range hi) as Hh. pose proof (byte_to_Z_range lo) as Hl.
  assert (Hnn : 0 <= Z.lor (Z.shiftl (byte_to_Z hi) 8) (byte_to_Z lo)).
  { apply Z.lor_nonneg. split; [apply Z.shiftl_nonneg|]; lia. }
  split; [done|].
  pose proof (be16_hi _ _ (proj1 Hh) Hl) as H1.
  rewrite Z.shiftr_div_pow2 in H1 by lia. change (2 ^ 8) with 256 in H1.
  pose proof (Z.div_mod (Z.lor (Z.shiftl (byte_to_Z hi) 8) (byte_to_Z lo)) 256 ltac:(lia)).
  pose proof (Z.mod_pos_bound (Z.lor (Z.shiftl (byte_to_Z hi) 8) (byte_to_Z lo)) 256 ltac:(lia)).
  lia.
Qed.

Lemma struct_pack_unpack (b h : Z) :
  0 <= b <= 255 -> 0 <= h <= 65535 ->
  exists x hi lo,
    struct_pack_BH b h = Ok [x; hi; lo] /\ struct_unpack_BH x hi lo = (b, h).
Proof.
  intros Hb Hh. unfold struct_pack_BH, struct_unpack_BH.
  replace ((0 <=? b) && (b <=? 255) && (0 <=? h) && (h <=? 65535)) with true
    by (symmetry; rewrite !andb_true_iff, !Z.leb_le; lia).
  destruct (byte_of_Z_some b Hb) as (x & -> & Hx).
  assert (Hhi : 0 <= Z.shiftr h 8 <= 255).
  { rewrite Z.shiftr_div_pow2 by lia. change (2 ^ 8) with 256.
    split; [apply Z.div_pos; lia|].
    pose proof (Z.div_lt_upper_bound h 256 256). lia. }
  assert (Hlo : 0 <= Z.land h 255 <= 255).
  { change 255 with (Z.ones 8) at 1 2. rewrite Z.land_ones by lia.
    change (2 ^ 8) with 256. pose proof (Z.mod_pos_bound h 256). lia. }
  destruct (byte_of_Z_some _ Hhi) as (hi & -> & Hhi').
  destruct (byte_of_Z_some _ Hlo) as (lo & -> & Hlo').
  exists x, hi, lo. split; [done|].
  rewrite Hx, Hhi', Hlo', be16_split by lia. done.
Qed.

Lemma struct_unpack_pack (x hi lo : byte) :
  struct_pack_BH (fst (struct_unpack_BH x hi lo)) (snd (struct_unpack_BH x hi lo))
  = Ok [x; hi; lo].
Proof.
  unfold struct_pack_BH, struct_unpack_BH. simpl.
  pose proof (byte_to_Z_range x). pose proof (byte_to_Z_range hi) as Hh.
  pose proof (byte_to_Z_range lo) as Hl. pose proof (be16_range hi lo).
  match goal with |- context [if ?c then _ else _] => replace c with true
    by (symmetry; rewrite !andb_true_iff, !Z.leb_le; lia) end.
  rewrite be16_hi, be16_lo by lia. by rewrite !byte_of_to_Z.
Qed.

(** ** The decoder *)

(** One turn of the [while] loop of [unpack_frames]. *)
Lemma unpack_frames_step (x hi lo : byte) (rest : bytes) :
  unpack_frames (x :: hi :: lo :: rest) =
  if len (x :: hi :: lo :: rest) <? 3 + snd (struct_unpack_BH x hi lo)
  then ([], x :: hi :: lo :: rest)
  else
    let n := Z.to_nat (snd (struct_unpack_BH x hi lo)) in
    ((fst (struct_unpack_BH x hi lo), take n rest) :: fst (unpack_frames (drop n rest)),
     snd (unpack_frames (drop n rest))).
Proof.
  simp unpack_frames.
  destruct (len (x :: hi :: lo :: rest) <? 3 + snd (struct_unpack_BH x hi lo));
    reflexivity.
Qed.

Lemma unpack_frames_short (data : bytes) :
  (length data < 3)%nat -> unpack_frames data = ([], data).
Proof.
  destruct data as [|x [|hi [|lo rest]]]; simpl; intros H;
    try lia; by simp unpack_frames.
Qed.

(** What [unpack_frames] leaves behind holds no complete frame: the loop
    has really stopped on its exit condition. *)
Lemma unpack_frames_rem_stuck (data : bytes) :
  unpack_frames (snd (unpack_frames data)) = ([], snd (unpack_frames data)).
Proof.
  remember (length data) as n eqn:Hn. revert data Hn.
  induction n as [n IH] using lt_wf_ind. intros data Hn.
  destruct data as [|x [|hi [|lo rest]]]; try (by simp unpack_frames).
  rewrite unpack_frames_step.
  destruct (len (x :: hi :: lo :: rest) <? 3 + snd (struct_unpack_BH x hi lo)) eqn:E.
  - simpl. rewrite unpack_frames_step, E. done.
  - simpl. eapply IH; [|done]. subst n. rewrite length_drop. simpl. lia.
Qed.

(** Bytes that arrive later never change the frames already decoded. *)
Lemma unpack_frames_app (a b : bytes) :
  unpack_frames (a ++ b) =
  (fst (unpack_frames a) ++ fst (unpack_frames (snd (unpack_frames a) ++ b)),
   snd (unpack_frames (snd (unpack_frames a) ++ b))).
Proof.
  remember (length a) as n eqn:Hn. revert a Hn.
  induction n as [n IH] using lt_wf_ind. intros a Hn.
  destruct a as [|x [|hi [|lo rest]]];
    try (simp unpack_frames; simpl; by destruct (unpack_frames _)).
  rewrite (unpack_frames_step x hi lo rest).
  destruct (len (x :: hi :: lo :: rest) <? 3 + snd (struct_unpack_BH x hi lo)) eqn:E.
  - simpl. by destruct (unpack_frames _).
  - change ((x :: hi :: lo :: rest) ++ b) with (x :: hi :: lo :: (rest ++ b)).
    rewrite unpack_frames_step.
    assert (Hle : (Z.to_nat (snd (struct_unpack_BH x hi lo)) <= length rest)%nat).
    { apply Z.ltb_ge in E. unfold len in E. simpl length in E. lia. }
    replace (len (x :: hi :: lo :: rest ++ b) <? 3 + snd (struct_unpack_BH x hi lo))
      with false.
    2:{ symmetry. apply Z.ltb_ge. apply Z.ltb_ge in E. unfold len in *.
        simpl length in *. rewrite length_app. lia. }
    cbv zeta. rewrite take_app_le, drop_app_le by done.
    rewrite (IH (length (drop (Z.to_nat (snd (struct_unpack_BH x hi lo))) rest)));
      [done| |done].
    subst n. rewrite length_drop. simpl. lia.
Qed.

(** Decoding loses nothing: the frames, encoded again, followed by the
    remainder are the input. *)
Lemma unpack_frames_pack (data : bytes) :
  exists e, pack_frames (fst (unpack_frames data)) = Ok e
            /\ e ++ snd (unpack_frames data) = data.
Proof.
  remember (length data) as n eqn:Hn. revert data Hn.
  induction n as [n IH] using lt_wf_ind. intros data Hn.
  destruct data as [|x [|hi [|lo rest]]];
    try (simp unpack_frames; by exists []).
  rewrite unpack_frames_step.
  destruct (len (x :: hi :: lo :: rest) <? 3 + snd (struct_unpack_BH x hi lo)) eqn:E.
  - by exists [].
  - apply Z.ltb_ge in E. unfold len in E. simpl length in E.
    pose proof (be16_range hi lo) as Hr.
    set (k := Z.to_nat (snd (struct_unpack_BH x hi lo))) in *.
    destruct (IH (length (drop k rest))) with (data := drop k rest)
      as (e & He & Hrem); [subst n; rewrite length_drop; simpl; lia|done|].
    cbv zeta. simpl fst. simpl snd. simpl pack_frames. rewrite He.
    unfold pack_frame. simpl fst. simpl snd.
    replace (len (take k rest)) with (snd (struct_unpack_BH x hi lo)).
    2:{ unfold len. rewrite length_take. subst k. simpl in *. lia. }
    change (byte_to_Z x) with (fst (struct_unpack_BH x hi lo)).
    rewrite struct_unpack_pack. eexists. split; [done|].
    simpl. do 3 f_equal. rewrite <- app_assoc, Hrem. apply take_drop.
Qed.

(** A packed frame at the front of the buffer is decoded as itself. *)
Lemma unpack_frames_packed (frame_type : Z) (payload e rest : bytes) :
  pack_frame frame_type payload = Ok e ->
  unpack_frames (e ++ rest) =
  ((frame_type, payload) :: fst (unpack_frames rest), snd (unpack_frames rest)).
Proof.
  unfold pack_frame. intros H.
  destruct (struct_pack_BH frame_type (len payload)) as [hdr|] eqn:Hp; [|done].
  injection H as <-.
  assert (Hr : 0 <= frame_type <= 255 /\ 0 <= len payload <= 65535).
  { unfold struct_pack_BH in Hp.
    destruct ((0 <=? frame_type) && (frame_type <=? 255) && (0 <=? len payload)
              && (len payload <=? 65535)) eqn:Hc; [|done].
    rewrite !andb_true_iff, !Z.leb_le in Hc. lia. }
  destruct (struct_pack_unpack _ _ (proj1 Hr) (proj2 Hr)) as (x & hi & lo & Hp' & Hu).
  rewrite Hp in Hp'. injection Hp' as ->.
  change (([x; hi; lo] ++ payload) ++ rest) with (x :: hi :: lo :: (payload ++ rest)).
  rewrite unpack_frames_step, Hu. simpl fst. simpl snd.
  replace (len (x :: hi :: lo :: payload ++ rest) <? 3 + len payload) with false.
  2:{ symmetry. apply Z.ltb_ge. unfold len. simpl length. rewrite length_app. lia. }
  cbv zeta. unfold len. rewrite Nat2Z.id.
  by rewrite take_app_length, drop_app_length.
Qed.

Lemma unpack_frames_packed_all (fs : list frame) (e : bytes) :
  pack_frames fs = Ok e -> unpack_frames e = (fs, []).
Proof.
  revert e. induction fs as [|[t p] fs IH]; intros e H; simpl in H.
  - injection H as <-. by simp unpack_frames.
  - destruct (pack_frame t p) as [e1|] eqn:H1; [|done].
    destruct (pack_frames fs) as [e2|] eqn:H2; [|done].
    injection H as <-. rewrite (unpack_frames_packed _ _ _ _ H1).
    by rewrite (IH _ eq_refl).
Qed.

Lemma pack_frame_valid (f : frame) :
  valid_frame f -> exists e, pack_frame (fst f) (snd f) = Ok e.
Proof.
  intros [Hk Hl]. unfold pack_frame.
  assert (Hb : 0 <= fst f <= 255) by (unfold TYPE_DATA, TYPE_CTRL in Hk; lia).
  assert (Hh : 0 <= len (snd f) <= 65535) by (unfold len in *; lia).
  destruct (struct_pack_unpack _ _ Hb Hh) as (x & hi & lo & -> & _). eauto.
Qed.

Lemma pack_frames_valid (fs : list frame) :
  Forall valid_frame fs -> exists e, pack_frames fs = Ok e.
Proof.
  induction 1 as [|f fs Hf _ [es IH]]; simpl; [by eauto|].
  destruct (pack_frame_valid f Hf) as [e ->]. rewrite IH. eauto.
Qed.

(** Chunk by chunk or all at once: the same frames, the same remainder. *)
Lemma decode_chunks_whole (buf : bytes) (chunks : list bytes) :
  unpack_frames buf = ([], buf) ->
  decode_chunks buf chunks = unpack_frames (buf ++ concat chunks).
Proof.
  revert buf. induction chunks as [|c cs IH]; intros buf Hbuf; simpl.
  - by rewrite app_nil_r, Hbuf.
  - rewrite IH by apply unpack_frames_rem_stuck.
    rewrite app_assoc, (unpack_frames_app (buf ++ c)). done.
Qed.

(** ** Running the session code *)

Lemma sum_len_app (a b : list bytes) : sum_len (a ++ b) = sum_len a + sum_len b.
Proof. induction a as [|c a IH]; simpl; [done|]. rewrite IH. lia. Qed.

Lemma sum_len_concat (b : list bytes) : sum_len b = len (concat b).
Proof.
  induction b as [|c b IH]; simpl; [done|].
  unfold len in *. rewrite length_app, IH. lia.
Qed.

Lemma sum_len_nonneg (b : list bytes) : 0 <= sum_len b.
Proof. rewrite sum_len_concat. unfold len. lia. Qed.

Lemma store_put (self : addr) (f : Session -> Session) (w : World) (s : Session) :
  heap w !! self = Some s -> store self f w = put self (f s) w.
Proof.
  intros Hs. unfold store, put. f_equal.
  revert self Hs. induction (heap w) as [|x l IH]; intros [|i] Hs; simplify_eq/=;
    [done|]. f_equal. by apply IH.
Qed.

Lemma put_put (self : addr) (a b : Session) (w : World) :
  put self a (put self b w) = put self a w.
Proof. unfold put. simpl. by rewrite list_insert_insert_eq. Qed.

Lemma heap_put (self : addr) (s s0 : Session) (w : World) :
  heap w !! self = Some s0 -> heap (put self s w) !! self = Some s.
Proof.
  intros Hs. simpl. apply list_lookup_insert_eq. by eapply lookup_lt_Some.
Qed.

Lemma store_over_put (self : addr) (f : Session -> Session) (s s0 : Session)
    (w : World) :
  heap w !! self = Some s0 -> store self f (put self s w) = put self (f s) w.
Proof.
  intros Hs. rewrite (store_put self f _ s) by (by eapply heap_put).
  apply put_put.
Qed.

Lemma put_same (self : addr) (s : Session) (w : World) :
  heap w !! self = Some s -> put self s w = w.
Proof. intros Hs. destruct w. unfold put. simpl in *. by rewrite list_insert_id. Qed.

Lemma deref_run (self : addr) (w : World) (s : Session) :
  heap w !! self = Some s -> deref self w = (Ok s, w).
Proof. unfold deref. by intros ->. Qed.

Lemma log_log (a b : list event) (w : World) : log b (log a w) = log (a ++ b) w.
Proof. unfold log. simpl. by rewrite app_assoc. Qed.

Lemma log_nil (w : World) : log [] w = w.
Proof. destruct w. unfold log. simpl. by rewrite app_nil_r. Qed.

(** Unfolds the monad's operations at the head of a run. *)
Ltac mstep :=
  unfold mbind, M_bind, mret, M_ret, lift, raise, emit, setattr, time_time,
    try_except; simpl.

Section SessionProperties.
Context {codec : JsonCodec}.

Lemma send_to_client_run (self : addr) (w : World) (s : Session)
    (frame_type : Z) (data : bytes) :
  heap w !! self = Some s ->
  _send_to_client self frame_type data w =
  match client_writer s with
  | Some c =>
      match pack_frame frame_type data with
      | Ok f => (Ok tt, log [ClientWrite c f] w)
      | Raise e => (Raise e, w)
      end
  | None => (Ok tt, w)
  end.
Proof.
  intros Hs. unfold _send_to_client. mstep. rewrite (deref_run _ _ _ Hs).
  destruct (client_writer s); [|done]. mstep. by destruct (pack_frame _ _).
Qed.

(** With an integer acknowledgement the comparison of [_trim_buffer]
    never raises, and what is left is a suffix of the buffer. *)
Lemma trim_loop_int (a cur : Z) (buf : list bytes) :
  fst (trim_loop (PInt a) cur buf) = Ok tt /\
  exists dropped, buf = dropped ++ snd (trim_loop (PInt a) cur buf).
Proof.
  revert cur. induction buf as [|c buf IH]; intros cur; simpl.
  - split; [done|]. by exists [].
  - destruct (cur + len c <=? a).
    + destruct (IH (cur + len c)) as [H1 [dr H2]]. split; [done|].
      exists (c :: dr). simpl. by rewrite <- H2.
    + split; [done|]. by exists [].
Qed.

Lemma evict_small (buffer : list bytes) :
  sum_len buffer <= BUFFER_LIMIT -> evict buffer = buffer.
Proof.
  destruct buffer as [|c rest]; [done|]. intros Hle. cbn [evict].
  rewrite Z.gtb_ltb. by replace (BUFFER_LIMIT <? sum_len (c :: rest)) with false
    by (symmetry; apply Z.ltb_ge; lia).
Qed.

(** Eviction removes chunks from the front only. *)
Lemma evict_suffix (buffer : list bytes) :
  exists dropped, buffer = dropped ++ evict buffer.
Proof.
  induction buffer as [|c rest [dr IH]]; [by exists []|]. cbn [evict].
  destruct (sum_len (c :: rest) >? BUFFER_LIMIT).
  - exists (c :: dr). simpl. by rewrite <- IH.
  - by exists [].
Qed.

Lemma handle_control_ack_run (self : addr) (w : World) (s : Session)
    (payload : bytes) (d : list (string * pyval)) (ack : Z) :
  heap w !! self = Some s ->
  json_loads payload = Some (PDict d) ->
  dict_get d "ack" = Some (PInt ack) ->
  _handle_control self payload w = (Ok tt, put self (acked (PInt ack) (clock w) s) w).
Proof.
  intros Hs Hl Hd. unfold _handle_control, py_in, py_getitem. rewrite Hl, Hd.
  mstep. unfold _trim_buffer. mstep.
  rewrite (store_put _ _ _ _ Hs).
  rewrite (deref_run self _ (set_ack_offset (PInt ack) s)) by (by eapply heap_put).
  mstep. fold (window_start s).
  destruct (trim_loop_int ack (window_start s) (buffer s)) as [-> _].
  by rewrite !(store_over_put _ _ _ _ _ Hs).
Qed.

Lemma append_buffer_run (self : addr) (w : World) (s : Session) (data : bytes) :
  heap w !! self = Some s ->
  _append_buffer self data w = (Ok tt, put self (appended data s) w).
Proof.
  intros Hs. unfold _append_buffer. mstep. rewrite (deref_run _ _ _ Hs).
  rewrite (store_put _ _ _ _ Hs), (store_over_put _ _ _ _ _ Hs).
  erewrite deref_run by (by eapply heap_put).
  by rewrite (store_over_put _ _ _ _ _ Hs).
Qed.

(** *** The replay loop *)

Lemma py_slice_from_suffix {A : Type} (skip : Z) (chunk : list A) :
  exists pre, chunk = pre ++ py_slice_from skip chunk.
Proof.
  unfold py_slice_from. destruct (skip <? 0); eexists; symmetry; apply take_drop.
Qed.

Lemma py_slice_from_len {A : Type} (skip : Z) (chunk : list A) :
  len (py_slice_from skip chunk) <= len chunk.
Proof.
  destruct (py_slice_from_suffix skip chunk) as [pre Hpre].
  rewrite Hpre at 2. unfold len. rewrite length_app. lia.
Qed.

Lemma pack_data_frame (payload : bytes) :
  len payload <= 65535 -> exists f, pack_frame TYPE_DATA payload = Ok f.
Proof. intros Hl. apply (pack_frame_valid (TYPE_DATA, payload)). split; auto. Qed.

Lemma replay_payloads_zero (chunks : list bytes) :
  Forall read_chunk chunks -> replay_payloads 0 chunks = chunks.
Proof.
  induction 1 as [|c rest Hc _ IH]; simpl; [done|].
  replace (len c <=? 0) with false by (symmetry; apply Z.leb_gt; apply Hc).
  by rewrite IH.
Qed.

Lemma replay_payloads_concat (skip : Z) (chunks : list bytes) :
  0 <= skip ->
  concat (replay_payloads skip chunks) = drop (Z.to_nat skip) (concat chunks).
Proof.
  revert skip. induction chunks as [|c rest IH]; intros skip Hs; simpl.
  - by rewrite drop_nil.
  - destruct (len c <=? skip) eqn:E.
    + apply Z.leb_le in E. unfold len in *. rewrite IH by lia.
      rewrite drop_app_ge by lia. f_equal. lia.
    + apply Z.leb_gt in E. unfold len in *. simpl. unfold py_slice_from.
      replace (skip <? 0) with false by (symmetry; apply Z.ltb_ge; lia).
      rewrite (IH 0) by lia. simpl. by rewrite drop_app_le by lia.
Qed.

(** For an offset inside the window the loop skips the chunks that lie
    wholly before it, cuts the chunk that holds it and sends the later
    chunks whole. *)
Lemma replay_payloads_split (skip : Z) (chunks : list bytes) :
  Forall read_chunk chunks ->
  0 <= skip < sum_len chunks ->
  exists pre c post,
    chunks = pre ++ c :: post /\
    sum_len pre <= skip < sum_len pre + len c /\
    replay_payloads skip chunks = drop (Z.to_nat (skip - sum_len pre)) c :: post.
Proof.
  intros Hall. revert skip.
  induction Hall as [|c rest Hc Hall IH]; intros skip Hs; simpl in *; [lia|].
  destruct (len c <=? skip) eqn:E.
  - apply Z.leb_le in E.
    destruct (IH (skip - len c)) as (pre & c' & post & -> & Hr & ->); [lia|].
    exists (c :: pre), c', post. simpl. repeat split; try lia.
    do 3 f_equal. lia.
  - apply Z.leb_gt in E. exists [], c, rest. simpl. repeat split; try lia.
    rewrite (replay_payloads_zero _ Hall). unfold py_slice_from.
    replace (skip <? 0) with false by (symmetry; apply Z.ltb_ge; lia).
    by rewrite Z.sub_0_r.
Qed.

(** For an offset before the window the first retained chunk goes
    through Python's negative slice, and every later chunk is sent
    whole. *)
Lemma replay_payloads_before_window (skip : Z) (c : bytes) (rest : list bytes) :
  Forall read_chunk rest ->
  skip < 0 -> replay_payloads skip (c :: rest) = py_slice_from skip c :: rest.
Proof.
  intros Hall Hs. simpl. rewrite (replay_payloads_zero _ Hall).
  by replace (len c <=? skip) with false
    by (symmetry; apply Z.leb_gt; unfold len; lia).
Qed.

Lemma replay_from_run (self : addr) (w : World) (s : Session) (c : client_conn)
    (skip : Z) (chunks : list bytes) :
  heap w !! self = Some s ->
  client_writer s = Some c ->
  Forall (fun chunk => len chunk <= 65535) chunks ->
  exists fs,
    replay_from self skip chunks w = (Ok tt, log (ClientWrite c <$> fs) w) /\
    Forall2 (fun p f => pack_frame TYPE_DATA p = Ok f) (replay_payloads skip chunks) fs.
Proof.
  intros Hs Hc Hall. revert skip w Hs.
  induction Hall as [|chunk rest Hchunk Hall IH]; intros skip w Hs.
  - exists []. simpl. mstep. by rewrite log_nil.
  - cbn [replay_from replay_payloads]. destruct (len chunk <=? skip); [by apply IH|].
    destruct (pack_data_frame (py_slice_from skip chunk)) as [f Hf].
    { pose proof (py_slice_from_len skip chunk). lia. }
    destruct (IH 0 (log [ClientWrite c f] w) Hs) as (fs & Hrun & Hfs).
    exists (f :: fs). split; [|by constructor].
    unfold mbind, M_bind. rewrite (send_to_client_run _ _ _ _ _ Hs), Hc, Hf, Hrun.
    by rewrite log_log.
Qed.

(** *** Attaching *)

Lemma attach_client_offset_run (self : addr) (w : World) (s : Session)
    (reader writer : client_conn) (r m : mud_conn) (tokf : bytes) (offset : Z) :
  heap w !! self = Some s ->
  mud_reader s = Some r -> mud_writer s = Some m ->
  pack_frame TYPE_CTRL (json_dumps (PDict [("session", PStr (session_id s))]))
    = Ok tokf ->
  Forall (fun chunk => len chunk <= 65535) (buffer s) ->
  exists fs,
    attach_client self reader writer (PInt offset) w =
    (Ok tt,
     log ([ClientWrite writer tokf] ++ (ClientWrite writer <$> fs)
          ++ [CreateTask (ReadClient self reader)])
       (put self (attached writer (clock w) s) w)) /\
    Forall2 (fun p f => pack_frame TYPE_DATA p = Ok f)
      (if offset <? total_bytes s
       then replay_payloads (offset - window_start s) (buffer s) else [])
      fs.
Proof.
  intros Hs Hr Hm Htok Hfit. unfold attach_client.
  unfold mbind, M_bind, setattr, time_time. cbn [clock store].
  rewrite (store_put _ _ _ _ Hs), (store_over_put _ _ _ _ _ Hs).
  fold (attached writer (clock w) s).
  assert (Hs' : heap (put self (attached writer (clock w) s) w) !! self
                = Some (attached writer (clock w) s)) by (by eapply heap_put).
  rewrite (deref_run _ _ _ Hs'). cbn [attached mud_reader mud_writer set_last_active
    set_client_writer session_id buffer total_bytes]. rewrite Hr, Hm.
  rewrite (send_to_client_run _ _ _ _ _ Hs'). cbn [attached client_writer
    set_last_active set_client_writer]. rewrite Htok. cbn [lift as_int].
  fold (attached writer (clock w) s).
  destruct (offset <? total_bytes s).
  - destruct (replay_from_run self (log [ClientWrite writer tokf]
        (put self (attached writer (clock w) s) w)) (attached writer (clock w) s)
        writer (offset - window_start s) (buffer s)) as (fs & Hrun & Hfs);
      [done|done|done|].
    exists fs. split; [|done]. unfold window_start in Hrun. rewrite Hrun.
    unfold emit. by rewrite !log_log.
  - exists []. split; [|constructor]. unfold mret, M_ret, emit. by rewrite log_log.
Qed.

(** *** Losing the upstream *)

Lemma set_mud_writer_None_id (s : Session) :
  mud_writer s = None -> set_mud_writer None s = s.
Proof. destruct s. simpl. by intros ->. Qed.

Lemma handle_mud_disconnect_run (self : addr) (w : World) (s : Session)
    (error : string) :
  heap w !! self = Some s ->
  _handle_mud_disconnect self error w =
  (Ok tt,
   put self (set_mud_writer None s)
     (log (match client_writer s with
           | Some c =>
               match pack_frame TYPE_CTRL
                       (json_dumps (PDict [("error", PStr error)])) with
               | Ok f => [ClientWrite c f; ClientClose c]
               | Raise _ => [ClientClose c]
               end
           | None => []
           end ++
           match mud_writer s with
           | Some m => [MudClose m]
           | None => []
           end) w)).
Proof.
  intros Hs. unfold _handle_mud_disconnect, _send_to_client, deref. mstep.
  rewrite Hs. destruct (client_writer s) as [c|] eqn:Hc; simpl; rewrite ?Hs, ?Hc.
  - destruct (pack_frame TYPE_CTRL _) as [f|e]; simpl; rewrite Hs;
      destruct (mud_writer s) as [m|] eqn:Hm; simpl;
      rewrite ?log_log, ?app_nil_r; simpl.
    + by rewrite (store_put _ _ _ s) by done.
    + by rewrite set_mud_writer_None_id, put_same by done.
    + by rewrite (store_put _ _ _ s) by done.
    + by rewrite set_mud_writer_None_id, put_same by done.
  - destruct (mud_writer s) as [m|] eqn:Hm; simpl.
    + by rewrite (store_put _ _ _ s) by done.
    + by rewrite set_mud_writer_None_id, log_nil, put_same by done.
Qed.

(** *** The buffer is the tail of the upstream stream *)

Lemma represents_window_nonneg (s : Session) (stream : bytes) :
  represents s stream -> 0 <= window_start s.
Proof.
  intros [Hlen Hcat]. destruct (decide (0 <= window_start s)) as [|Hneg]; [done|].
  replace (Z.to_nat (window_start s)) with 0%nat in Hcat by lia.
  rewrite drop_0 in Hcat. pose proof (sum_len_concat (buffer s)) as Hsum.
  rewrite Hcat in Hsum. unfold window_start in *. lia.
Qed.

Lemma represents_suffix (s s' : Session) (stream : bytes) (dropped : list bytes) :
  represents s stream ->
  total_bytes s' = total_bytes s ->
  buffer s = dropped ++ buffer s' ->
  represents s' stream.
Proof.
  intros Hrep Ht Hb. pose proof (represents_window_nonneg _ _ Hrep) as Hnn.
  destruct Hrep as [Hlen Hcat]. split; [by rewrite Ht|].
  unfold window_start in *. rewrite Hb, concat_app in Hcat.
  rewrite Hb, sum_len_app in Hnn.
  apply (f_equal (drop (length (concat dropped)))) in Hcat.
  rewrite drop_app_length, drop_drop in Hcat. rewrite Hcat, Ht. f_equal.
  rewrite sum_len_app. pose proof (sum_len_concat dropped) as Hd.
  unfold len in Hd. lia.
Qed.

Lemma represents_init (session_id : string) (now : Q) :
  represents (mkSession session_id [] (PInt 0) 0 None None None now None) [].
Proof. by split. Qed.

(** [_append_buffer] keeps the buffer a tail of the stream, also when it
    evicts. *)
Lemma represents_appended (s : Session) (stream data : bytes) :
  represents s stream -> represents (appended data s) (stream ++ data).
Proof.
  intros Hrep. pose proof (represents_window_nonneg _ _ Hrep) as Hnn.
  destruct Hrep as [Hlen Hcat].
  destruct (evict_suffix (buffer s ++ [data])) as [dr Hdr].
  apply (represents_suffix
           (set_buffer (buffer s ++ [data])
              (set_total_bytes (total_bytes s + len data) s)) _ _ dr);
    [|done|done].
  unfold window_start in *. split; simpl.
  - unfold len in *. rewrite length_app. lia.
  - unfold window_start. simpl. rewrite concat_app, Hcat. simpl.
    rewrite app_nil_r, sum_len_app. simpl.
    replace (total_bytes s + len data - (sum_len (buffer s) + (len data + 0)))
      with (total_bytes s - sum_len (buffer s)) by lia.
    rewrite drop_app_le; [done|]. unfold len in Hlen.
    pose proof (sum_len_nonneg (buffer s)). lia.
Qed.

(** The retained chunks are reads of the upstream as long as the
    appended data are. *)
Lemma read_chunks_appended (s : Session) (data : bytes) :
  Forall read_chunk (buffer s) -> read_chunk data ->
  Forall read_chunk (buffer (appended data s)).
Proof.
  intros Hb Hd. simpl. destruct (evict_suffix (buffer s ++ [data])) as [dr Hdr].
  assert (Hall : Forall read_chunk (buffer s ++ [data])).
  { apply Forall_app. split; [done|]. by constructor. }
  rewrite Hdr in Hall. by apply Forall_app in Hall as [_ ?].
Qed.

Lemma read_chunks_acked (s : Session) (ack : Z) (now : Q) :
  Forall read_chunk (buffer s) -> Forall read_chunk (buffer (acked (PInt ack) now s)).
Proof.
  intros Hb. simpl.
  destruct (trim_loop_int ack (window_start s) (buffer s)) as [_ [dr Hdr]].
  rewrite Hdr in Hb. by apply Forall_app in Hb as [_ ?].
Qed.

(** An integer acknowledgement keeps it too: trimming drops a prefix. *)
Lemma represents_acked (s : Session) (stream : bytes) (ack : Z) (now : Q) :
  represents s stream -> represents (acked (PInt ack) now s) stream.
Proof.
  intros Hrep.
  destruct (trim_loop_int ack (window_start s) (buffer s)) as [_ [dr Hdr]].
  by apply (represents_suffix s _ _ dr).
Qed.

End SessionProperties.

(** ** Small runs of the definitions *)

Example unpack_frames_partial :
  unpack_frames (frame_of TYPE_DATA (text "look") ++ [x01; x00; x09; x7b])
  = ([(TYPE_DATA, text "look")], [x01; x00; x09; x7b]).
Proof. reflexivity. Qed.

Example decode_chunks_split_header :
  decode_chunks [] [[x00; x00]; [x02; x68]; [x69; x01; x00; x00]]
  = ([(TYPE_DATA, text "hi"); (TYPE_CTRL, [])], []).
Proof. reflexivity. Qed.

Example pack_frame_too_long_kind : pack_frame 256 [] = Raise StructError.
Proof. reflexivity. Qed.

Example py_slice_from_negative :
  py_slice_from (-5) (octets 10 10) = octets 15 5 /\
  py_slice_from (-25) (octets 10 10) = octets 10 10 /\
  py_slice_from 3 (octets 10 10) = octets 13 7.
Proof. repeat split; reflexivity. Qed.

(** * The claims *)

(** ** Frame codec *)

(** C8.  For every kind in {Data, Control} and every payload of at most
    65535 bytes, [pack_frame] succeeds and [unpack_frames] on its result
    gives exactly the one frame [(kind, payload)] and an empty
    remainder. *)
Theorem pack_unpack_roundtrip (kind : Z) (payload : bytes) :
  kind = TYPE_DATA \/ kind = TYPE_CTRL ->
  len payload <= 65535 ->
  exists e, pack_frame kind payload = Ok e
            /\ unpack_frames e = ([(kind, payload)], []).
Proof.
  intros Hk Hl.
  destruct (pack_frame_valid (kind, payload)) as [e He]; [by split|].
  exists e. split; [done|]. simpl in He.
  rewrite <- (app_nil_r e), (unpack_frames_packed _ _ _ _ He).
  by simp unpack_frames.
Qed.

(** The round trip of the Control frame that opens a session. *)
Lemma pack_unpack_roundtrip_witness :
  exists e, pack_frame TYPE_CTRL new_text = Ok e
            /\ unpack_frames e = ([(TYPE_CTRL, new_text)], []).
Proof.
  apply (pack_unpack_roundtrip TYPE_CTRL new_text); [by right|].
  vm_compute. discriminate.
Defined.

(** C9.  For every list of valid frames, their encodings one after the
    other exist, and for every way of cutting these bytes into chunks,
    decoding chunk by chunk with the remainder carried along gives the
    same frames in the same order as decoding all bytes at once, with
    nothing left over; and after any number of chunks the frames decoded
    so far, encoded again, followed by the carried remainder are exactly
    the bytes received so far: a partial frame is never dropped. *)
Theorem incremental_decode (fs : list frame) :
  Forall valid_frame fs ->
  exists enc, pack_frames fs = Ok enc /\
    forall chunks : list bytes, concat chunks = enc ->
      decode_chunks [] chunks = (fs, []) /\
      unpack_frames (concat chunks) = (fs, []) /\
      forall k : nat, exists e,
        pack_frames (fst (decode_chunks [] (take k chunks))) = Ok e /\
        e ++ snd (decode_chunks [] (take k chunks)) = concat (take k chunks).
Proof.
  intros Hv. destruct (pack_frames_valid fs Hv) as [enc Henc].
  exists enc. split; [done|]. intros chunks <-.
  assert (Hnil : unpack_frames [] = ([], [])) by (by simp unpack_frames).
  split; [|split].
  - rewrite (decode_chunks_whole [] chunks Hnil). simpl.
    by apply unpack_frames_packed_all.
  - by apply unpack_frames_packed_all.
  - intros k. rewrite (decode_chunks_whole [] _ Hnil). simpl.
    apply unpack_frames_pack.
Qed.

(** An acknowledgement frame followed by a Data frame of ten bytes, cut
    into chunks in any way. *)
Lemma incremental_decode_witness :
  exists enc,
    pack_frames [(TYPE_CTRL, ack_text "15"); (TYPE_DATA, octets 0 10)] = Ok enc /\
    forall chunks : list bytes, concat chunks = enc ->
      decode_chunks [] chunks =
        ([(TYPE_CTRL, ack_text "15"); (TYPE_DATA, octets 0 10)], []) /\
      unpack_frames (concat chunks) =
        ([(TYPE_CTRL, ack_text "15"); (TYPE_DATA, octets 0 10)], []) /\
      forall k : nat, exists e,
        pack_frames (fst (decode_chunks [] (take k chunks))) = Ok e /\
        e ++ snd (decode_chunks [] (take k chunks)) = concat (take k chunks).
Proof.
  apply (incremental_decode [(TYPE_CTRL, ack_text "15"); (TYPE_DATA, octets 0 10)]).
  repeat constructor; vm_compute; discriminate.
Defined.

(** ** Acknowledgements and the buffer *)

Section SessionClaims.
Context {codec : JsonCodec}.

(** C1, as the code has it.  For every session and every control frame
    whose JSON object carries an integer [ack], [_handle_control] returns
    normally and the new [ack_offset] is [ack], whatever [ack_offset] was
    before (there is no maximum with the old value); [total_bytes] is
    unchanged and the new buffer is a suffix of the old one. *)
Theorem ack_offset_is_last_ack (self : addr) (w : World) (s : Session)
    (payload : bytes) (d : list (string * pyval)) (ack : Z) :
  heap w !! self = Some s ->
  json_loads payload = Some (PDict d) ->
  dict_get d "ack" = Some (PInt ack) ->
  fst (_handle_control self payload w) = Ok tt /\
  exists s', heap (exec (_handle_control self payload) w) !! self = Some s' /\
    ack_offset s' = PInt ack /\
    total_bytes s' = total_bytes s /\
    exists dropped, buffer s = dropped ++ buffer s'.
Proof.
  intros Hs Hl Hd. unfold exec.
  rewrite (handle_control_ack_run _ _ _ _ _ _ Hs Hl Hd). split; [done|].
  eexists. split; [by eapply heap_put|]. simpl. repeat split.
  apply (trim_loop_int ack (window_start s) (buffer s)).
Qed.

(** C3, as the code has it.  In a session that has received chunks of
    lengths 10, 10, 10 (so [total_bytes = 30]) and then an
    acknowledgement of 15, the retained buffer is the second and third
    chunk, the bytes [10,30) of the stream: only chunks that lie wholly
    below the acknowledged offset are dropped. *)
Theorem trim_drops_whole_chunks_only (self : addr) (w : World) (s : Session)
    (c1 c2 c3 payload : bytes) (d : list (string * pyval)) :
  heap w !! self = Some s ->
  buffer s = [] -> total_bytes s = 0 ->
  len c1 = 10 -> len c2 = 10 -> len c3 = 10 ->
  json_loads payload = Some (PDict d) ->
  dict_get d "ack" = Some (PInt 15) ->
  let run :=
    _append_buffer self c1;; _append_buffer self c2;; _append_buffer self c3;;
    _handle_control self payload in
  fst (run w) = Ok tt /\
  exists s', heap (exec run w) !! self = Some s' /\
    total_bytes s' = 30 /\
    buffer s' = [c2; c3] /\
    concat (buffer s') = drop 10 (c1 ++ c2 ++ c3).
Proof.
  intros Hs Hb Ht H1 H2 H3 Hl Hd run. unfold exec, run. mstep.
  rewrite (append_buffer_run _ _ _ _ Hs).
  erewrite append_buffer_run by (by eapply heap_put). rewrite put_put.
  erewrite append_buffer_run by (by eapply heap_put). rewrite put_put.
  erewrite handle_control_ack_run by (first [by eapply heap_put | done]).
  rewrite put_put. split; [done|]. eexists. split; [by eapply heap_put|].
  unfold acked, appended, window_start.
  cbn [buffer total_bytes ack_offset set_buffer set_total_bytes set_ack_offset
       set_last_active].
  rewrite Hb, Ht. cbn [app].
  rewrite (evict_small [c1]) by (unfold BUFFER_LIMIT; simpl; lia). cbn [app].
  rewrite (evict_small [c1; c2]) by (unfold BUFFER_LIMIT; simpl; lia). cbn [app].
  rewrite (evict_small [c1; c2; c3]) by (unfold BUFFER_LIMIT; simpl; lia).
  cbn [trim_loop as_int sum_len foldr]. rewrite H1, H2, H3.
  cbv -[drop concat app]. repeat split. simpl concat.
  rewrite app_nil_r, drop_app_length'; [done|]. unfold len in H1. lia.
Qed.

End SessionClaims.

(** In the example run with sixty bytes received, an acknowledgement
    of 30. *)
Lemma ack_offset_is_last_ack_witness :
  exists s, heap world_fed60 !! 0%nat = Some s /\
  fst (_handle_control (codec := demo_codec) 0 (ack_text "30") world_fed60) = Ok tt /\
  exists s',
    heap (exec (_handle_control (codec := demo_codec) 0 (ack_text "30")) world_fed60)
      !! 0%nat = Some s' /\
    ack_offset s' = PInt 30 /\
    total_bytes s' = total_bytes s /\
    exists dropped, buffer s = dropped ++ buffer s'.
Proof.
  eexists. split; [reflexivity|].
  apply (ack_offset_is_last_ack (codec := demo_codec) 0 world_fed60
           _ (ack_text "30") [("ack", PInt 30)] 30); reflexivity.
Defined.

(** C1 as stated fails: after acknowledgements 50 then 30 the session's
    [ack_offset] is 30, not [max 50 30]. *)
Lemma ack_50_then_30_leaves_30 :
  let w1 := exec (_handle_control (codec := demo_codec) 0 (ack_text "50")) world_fed60 in
  let w2 := exec (_handle_control (codec := demo_codec) 0 (ack_text "30")) w1 in
  ack_offset <$> heap w1 !! 0%nat = Some (PInt 50) /\
  ack_offset <$> heap w2 !! 0%nat = Some (PInt 30) /\
  PInt 30 <> PInt (Z.max 50 30).
Proof. vm_compute. repeat split; discriminate. Qed.

(** The example run: three chunks of ten bytes on the fresh session,
    then the acknowledgement of 15. *)
Lemma trim_drops_whole_chunks_only_witness :
  let run :=
    _append_buffer 0 (octets 0 10);;
    _append_buffer 0 (octets 10 10);;
    _append_buffer 0 (octets 20 10);;
    _handle_control (codec := demo_codec) 0 (ack_text "15") in
  fst (run world_opened) = Ok tt /\
  exists s', heap (exec run world_opened) !! 0%nat = Some s' /\
    total_bytes s' = 30 /\
    buffer s' = [octets 10 10; octets 20 10] /\
    concat (buffer s') = drop 10 (octets 0 10 ++ octets 10 10 ++ octets 20 10).
Proof.
  eapply (trim_drops_whole_chunks_only (codec := demo_codec) 0 world_opened
            _ (octets 0 10) (octets 10 10) (octets 20 10) (ack_text "15")
            [("ack", PInt 15)]); reflexivity.
Defined.

(** C3 as stated fails: after chunks of lengths 10, 10, 10 and an
    acknowledgement of 15 the buffer holds the twenty bytes [10,30), not
    the fifteen bytes [15,30). *)
Lemma ack_15_keeps_bytes_from_10 :
  let w := exec (_handle_control (codec := demo_codec) 0 (ack_text "15")) world_fed in
  (total_bytes <$> heap world_fed !! 0%nat) = Some 30 /\
  (buffer <$> heap world_fed !! 0%nat)
    = Some [octets 0 10; octets 10 10; octets 20 10] /\
  (buffer <$> heap w !! 0%nat) = Some [octets 10 10; octets 20 10] /\
  concat [octets 10 10; octets 20 10] = octets 10 20 /\
  octets 10 20 <> octets 15 15.
Proof. vm_compute. repeat split; discriminate. Qed.

(** ** Resuming *)

Section ResumeClaims.
Context {codec : JsonCodec}.

(** C7, as the code has it.  A resume attach with an integer offset at
    or after [window_start], on a session whose upstream connection is
    open and whose buffer holds the reads of the upstream, sends the
    session token frame and then Data frames whose payloads are exactly
    the bytes [[offset, total_bytes)] of the upstream stream.  For an
    offset below [total_bytes] the chunks that end at or before the
    offset are skipped, the chunk that holds it is cut at
    [offset - window_start] counted from the start of the buffer, and the
    later chunks are sent whole; for an offset at or after [total_bytes]
    no Data frame is sent. *)
Theorem resume_replays_from_offset (self : addr) (w : World) (s : Session)
    (reader writer : client_conn) (r m : mud_conn) (tokf stream : bytes)
    (offset : Z) :
  heap w !! self = Some s ->
  mud_reader s = Some r -> mud_writer s = Some m ->
  pack_frame TYPE_CTRL (json_dumps (PDict [("session", PStr (session_id s))]))
    = Ok tokf ->
  Forall read_chunk (buffer s) ->
  represents s stream ->
  window_start s <= offset ->
  exists ps fs,
    attach_client self reader writer (PInt offset) w =
    (Ok tt,
     log ([ClientWrite writer tokf] ++ (ClientWrite writer <$> fs)
          ++ [CreateTask (ReadClient self reader)])
       (put self (attached writer (clock w) s) w)) /\
    Forall2 (fun p f => pack_frame TYPE_DATA p = Ok f) ps fs /\
    concat ps = drop (Z.to_nat offset) stream /\
    (offset < total_bytes s ->
     exists pre c post,
       buffer s = pre ++ c :: post /\
       sum_len pre <= offset - window_start s < sum_len pre + len c /\
       ps = drop (Z.to_nat (offset - window_start s - sum_len pre)) c :: post) /\
    (total_bytes s <= offset -> ps = []).
Proof.
  intros Hs Hr Hm Htok Hchunks Hrep Hoff.
  assert (Hfit : Forall (fun chunk => len chunk <= 65535) (buffer s)).
  { eapply Forall_impl; [exact Hchunks|]. unfold read_chunk. intros c Hc. lia. }
  destruct (attach_client_offset_run self w s reader writer r m tokf offset
              Hs Hr Hm Htok Hfit) as (fs & Hrun & Hfs).
  pose proof (represents_window_nonneg _ _ Hrep) as Hnn.
  destruct Hrep as [Hlen Hcat].
  eexists _, fs. split; [exact Hrun|]. split; [exact Hfs|].
  destruct (offset <? total_bytes s) eqn:E.
  - apply Z.ltb_lt in E. split; [|split; [|lia]].
    + rewrite replay_payloads_concat, Hcat, drop_drop by lia. f_equal. lia.
    + intros _. apply replay_payloads_split; [done|].
      unfold window_start in *. lia.
  - apply Z.ltb_ge in E. split; [|split; [lia|done]].
    simpl. symmetry. apply drop_ge. unfold len in Hlen. lia.
Qed.

(** C2, where the code departs from the contract.  A resume attach with
    an integer offset strictly below [window_start], on a session whose
    upstream connection is open, is not answered with an error: the
    session sends the token frame, then Data frames, and starts the
    client relay loop; the connection is not closed.  The slice
    [chunk[skip:]] is taken with a negative [skip]: when the offset lies
    less than the length of the first retained chunk below the window,
    the first Data frame carries only the last
    [window_start - offset] bytes of that chunk, so the retained bytes
    before them are left out although they come after the offset;
    otherwise the first retained chunk is sent whole.  Every later chunk
    is sent whole. *)
Theorem resume_below_window_sends_data (self : addr) (w : World) (s : Session)
    (reader writer : client_conn) (r m : mud_conn) (tokf : bytes) (offset : Z) :
  heap w !! self = Some s ->
  mud_reader s = Some r -> mud_writer s = Some m ->
  pack_frame TYPE_CTRL (json_dumps (PDict [("session", PStr (session_id s))]))
    = Ok tokf ->
  Forall read_chunk (buffer s) ->
  offset < window_start s ->
  exists fs,
    attach_client self reader writer (PInt offset) w =
    (Ok tt,
     log ([ClientWrite writer tokf] ++ (ClientWrite writer <$> fs)
          ++ [CreateTask (ReadClient self reader)])
       (put self (attached writer (clock w) s) w)) /\
    Forall2 (fun p f => pack_frame TYPE_DATA p = Ok f)
      (match buffer s with
       | [] => []
       | c :: rest =>
           (if window_start s - offset <? len c
            then drop (Z.to_nat (len c - (window_start s - offset))) c
            else c) :: rest
       end) fs.
Proof.
  intros Hs Hr Hm Htok Hchunks Hoff.
  assert (Hfit : Forall (fun chunk => len chunk <= 65535) (buffer s)).
  { eapply Forall_impl; [exact Hchunks|]. unfold read_chunk. intros c Hc. lia. }
  destruct (attach_client_offset_run self w s reader writer r m tokf offset
              Hs Hr Hm Htok Hfit) as (fs & Hrun & Hfs).
  exists fs. split; [exact Hrun|].
  pose proof (sum_len_nonneg (buffer s)) as Hnn.
  replace (offset <? total_bytes s) with true in Hfs
    by (symmetry; apply Z.ltb_lt; unfold window_start in Hoff; lia).
  destruct (buffer s) as [|c rest] eqn:Hb; [exact Hfs|].
  inversion Hchunks as [|? ? Hc Hrest]; subst.
  rewrite replay_payloads_before_window in Hfs by (done || lia).
  unfold py_slice_from in Hfs.
  replace (offset - window_start s <? 0) with true in Hfs
    by (symmetry; apply Z.ltb_lt; lia).
  destruct (window_start s - offset <? len c) eqn:E.
  - apply Z.ltb_lt in E.
    by replace (Z.max 0 (len c + (offset - window_start s)))
      with (len c - (window_start s - offset)) in Hfs by lia.
  - apply Z.ltb_ge in E.
    by replace (Z.max 0 (len c + (offset - window_start s))) with 0 in Hfs by lia.
Qed.

End ResumeClaims.

Ltac by_computation := vm_compute; first [reflexivity | discriminate | done].

(** In the example run (window [10,30)), a resume at offset 15. *)
Lemma resume_replays_from_offset_witness :
  exists s, heap world_acked !! 0%nat = Some s /\
  exists ps fs,
    attach_client (codec := demo_codec) 0 2 2 (PInt 15) world_acked =
    (Ok tt,
     log ([ClientWrite 2 demo_token_frame] ++ (ClientWrite 2 <$> fs)
          ++ [CreateTask (ReadClient 0 2)])
       (put 0 (attached 2 (clock world_acked) s) world_acked)) /\
    Forall2 (fun p f => pack_frame TYPE_DATA p = Ok f) ps fs /\
    concat ps = drop (Z.to_nat 15) (octets 0 30) /\
    (15 < total_bytes s ->
     exists pre c post,
       buffer s = pre ++ c :: post /\
       sum_len pre <= 15 - window_start s < sum_len pre + len c /\
       ps = drop (Z.to_nat (15 - window_start s - sum_len pre)) c :: post) /\
    (total_bytes s <= 15 -> ps = []).
Proof.
  eexists. split; [reflexivity|].
  apply (resume_replays_from_offset (codec := demo_codec) 0 world_acked _ 2 2 7 7
           demo_token_frame (octets 0 30) 15);
    try reflexivity.
  - repeat constructor; by_computation.
  - split; reflexivity.
  - by_computation.
Defined.

(** In the example run (window [10,30), first retained chunk [10,20)), a
    resume at offset 5: the first Data frame carries the last five bytes
    of that chunk. *)
Lemma resume_below_window_sends_data_witness :
  exists s, heap world_acked !! 0%nat = Some s /\
  exists fs,
    attach_client (codec := demo_codec) 0 2 2 (PInt 5) world_acked =
    (Ok tt,
     log ([ClientWrite 2 demo_token_frame] ++ (ClientWrite 2 <$> fs)
          ++ [CreateTask (ReadClient 0 2)])
       (put 0 (attached 2 (clock world_acked) s) world_acked)) /\
    Forall2 (fun p f => pack_frame TYPE_DATA p = Ok f)
      (match buffer s with
       | [] => []
       | c :: rest =>
           (if window_start s - 5 <? len c
            then drop (Z.to_nat (len c - (window_start s - 5))) c
            else c) :: rest
       end) fs.
Proof.
  eexists. split; [reflexivity|].
  apply (resume_below_window_sends_data (codec := demo_codec) 0 world_acked _ 2 2 7 7
           demo_token_frame 5);
    try reflexivity.
  repeat constructor; by_computation.
Defined.

(** The failing input of C2, through the handshake.  In the example
    run the session has received thirty bytes and dropped the first
    chunk after the acknowledgement of 15, so its window starts at 10
    and it retains the bytes [10,30).  A resume with offset 5 gets the
    token frame, a Data frame with the bytes [15,20) (the last five of
    the first retained chunk), a Data frame with the bytes [20,30), and
    the relay loop is started: no error frame, no close, and the
    retained bytes [10,15) are not sent.  (The token and the dial
    outcome given to [handle_client] are not used on the resume
    path.) *)
Lemma resume_below_window_gets_data :
  (window_start <$> heap world_acked !! 0%nat) = Some 10 /\
  handle_client (codec := demo_codec) 2 2
    (frame_of TYPE_CTRL (resume_text demo_token "5")) "" DialRefused world_acked
  = (Ok tt,
     log [ClientWrite 2 demo_token_frame;
          ClientWrite 2 (frame_of TYPE_DATA (octets 15 5));
          ClientWrite 2 (frame_of TYPE_DATA (octets 20 10));
          CreateTask (ReadClient 0 2)]
       (store 0 (attached 2 (clock world_acked)) world_acked)).
Proof. split; by_computation. Qed.

(** C7 as stated fails.  In the example run the upstream reaches
    end-of-stream while no client is attached; the session stays in the
    registry with its buffer (window [10,30)).  A resume with offset 15,
    inside the window, meets the guard of [attach_client] on the closed
    upstream connection: the client is sent the error frame with the
    reason [Connection refused] and closed, and no Data frame at all.
    (The token and the dial outcome given to [handle_client] are not
    used on the resume path.) *)
Lemma resume_after_upstream_eof_replays_nothing :
  sessions world_lost !! demo_token = Some 0%nat /\
  (window_start <$> heap world_lost !! 0%nat) = Some 10 /\
  (total_bytes <$> heap world_lost !! 0%nat) = Some 30 /\
  handle_client (codec := demo_codec) 2 2
    (frame_of TYPE_CTRL (resume_text demo_token "15")) "" DialRefused world_lost
  = (Ok tt,
     log [ClientWrite 2
            (frame_of TYPE_CTRL
               (demo_dumps (PDict [("error", PStr "Connection refused")])));
          ClientClose 2]
       (store 0 (attached 2 (clock world_lost)) world_lost)).
Proof. repeat split; by_computation. Qed.

(** ** Upstream loss and failed dials *)

Section LifecycleClaims.
Context {codec : JsonCodec}.

(** C5, as the code has it.  When the upstream read of a session with an
    open upstream connection yields end-of-stream, the relay loop stops
    after sending an attached client (if any) the Control frame with the
    reason [Connection lost], closing that client connection and closing
    the upstream connection; the registry is left as it was, so a token
    that maps to the session still does. *)
Theorem upstream_eof_keeps_token (self : addr) (w : World) (s : Session)
    (r m : mud_conn) (f : bytes) :
  heap w !! self = Some s ->
  mud_reader s = Some r -> mud_writer s = Some m ->
  pack_frame TYPE_CTRL (json_dumps (PDict [("error", PStr "Connection lost")]))
    = Ok f ->
  _read_mud_turn self (ReadBytes []) w =
  (Ok Break,
   put self (set_mud_writer None s)
     (log (match client_writer s with
           | Some c => [ClientWrite c f; ClientClose c]
           | None => []
           end ++ [MudClose m]) w)) /\
  sessions (exec (_read_mud_turn self (ReadBytes [])) w) = sessions w.
Proof.
  intros Hs Hr Hm Hf.
  assert (Hrun : _read_mud_turn self (ReadBytes []) w =
    (Ok Break,
     put self (set_mud_writer None s)
       (log (match client_writer s with
             | Some c => [ClientWrite c f; ClientClose c]
             | None => []
             end ++ [MudClose m]) w))).
  { unfold _read_mud_turn. unfold mbind at 1, M_bind.
    rewrite (deref_run _ _ _ Hs), Hr. unfold mbind, M_bind.
    by rewrite (handle_mud_disconnect_run _ _ _ _ Hs), Hf, Hm. }
  split; [done|]. unfold exec. by rewrite Hrun.
Qed.

(** C6, as the code has it.  When the first frame of a connection is a
    Control frame whose JSON value has no member [resume] and the dial
    is refused, the client is sent the Control frame with the reason
    [Connection refused] and its connection is closed; the session was
    registered under its new token before the dial and the entry stays
    in the registry. *)
Theorem refused_dial_keeps_entry (reader writer : client_conn) (data : bytes)
    (session_id : string) (w : World) (payload : bytes) (rest : list frame)
    (msg : pyval) (f : bytes) :
  fst (unpack_frames data) = (TYPE_CTRL, payload) :: rest ->
  json_loads payload = Some msg ->
  py_in "resume" msg = Ok false ->
  pack_frame TYPE_CTRL (json_dumps (PDict [("error", PStr "Connection refused")]))
    = Ok f ->
  let self := length (heap w) in
  handle_client reader writer data session_id DialRefused w =
  (Ok tt,
   mkWorld (<[session_id := self]> (sessions w))
     (heap w ++ [mkSession session_id [] (PInt 0) 0 (Some writer) None None
                   (clock w) (Some (ReadMud self))])
     (trace w ++ [CreateTask (ReadMud self); ClientWrite writer f;
                  ClientClose writer])
     (clock w)) /\
  sessions (exec (handle_client reader writer data session_id DialRefused) w)
    !! session_id = Some self.
Proof.
  intros Hfr Hl Hin Hf self.
  set (s0 := mkSession session_id [] (PInt 0) 0 None None None (clock w) None).
  set (w1 := mkWorld (<[session_id := self]> (sessions w)) (heap w ++ [s0])
               (trace w) (clock w)).
  assert (Hs0 : heap w1 !! self = Some s0).
  { simpl. by rewrite lookup_app_r, Nat.sub_diag. }
  assert (Hrun : handle_client reader writer data session_id DialRefused w =
    (Ok tt,
     mkWorld (<[session_id := self]> (sessions w))
       (heap w ++ [mkSession session_id [] (PInt 0) 0 (Some writer) None None
                     (clock w) (Some (ReadMud self))])
       (trace w ++ [CreateTask (ReadMud self); ClientWrite writer f;
                    ClientClose writer])
       (clock w))).
  { unfold handle_client. rewrite Hfr. cbn [negb]. rewrite Z.eqb_refl. cbn [negb].
    rewrite Hl, Hin. unfold mbind at 1, M_bind, lift.
    unfold mbind at 1, M_bind, Session_init. fold self. fold s0.
    unfold mbind at 1 2, M_bind, sessions_set. cbn [sessions heap trace clock].
    fold w1. unfold connect_to_mud, attach_client. mstep.
    rewrite (store_put _ _ (log _ w1) s0) by done.
    rewrite !(store_over_put _ _ _ s0) by done.
    erewrite deref_run by (by eapply heap_put). simpl.
    erewrite handle_mud_disconnect_run by (by eapply heap_put). simpl.
    rewrite Hf. unfold put, log, w1. simpl. do 2 f_equal.
    - rewrite list_insert_insert_eq.
      replace self with (length (heap w) + 0)%nat by (unfold self; lia).
      by rewrite insert_app_r.
    - by rewrite <- app_assoc. }
  split; [done|]. unfold exec. rewrite Hrun. simpl. apply lookup_insert_eq.
Qed.

End LifecycleClaims.

(** In the example run, end-of-stream while client 1 is attached. *)
Lemma upstream_eof_keeps_token_witness :
  exists s, heap world_fed !! 0%nat = Some s /\
  _read_mud_turn (codec := demo_codec) 0 (ReadBytes []) world_fed =
  (Ok Break,
   put 0 (set_mud_writer None s)
     (log (match client_writer s with
           | Some c =>
               [ClientWrite c
                  (frame_of TYPE_CTRL
                     (demo_dumps (PDict [("error", PStr "Connection lost")])));
                ClientClose c]
           | None => []
           end ++ [MudClose 7]) world_fed)) /\
  sessions (exec (_read_mud_turn (codec := demo_codec) 0 (ReadBytes [])) world_fed)
  = sessions world_fed.
Proof.
  eexists. split; [reflexivity|].
  apply (upstream_eof_keeps_token (codec := demo_codec) 0 world_fed _ 7 7);
    reflexivity.
Defined.

(** C5 as stated fails.  In the example run the upstream reaches
    end-of-stream while client 1 is attached: the client is told and
    closed and the upstream is closed, but the token is still in the
    registry afterwards, and it still leads to the session object. *)
Lemma upstream_eof_token_still_registered :
  let w := exec (_read_mud_turn (codec := demo_codec) 0 (ReadBytes [])) world_fed in
  sessions world_fed !! demo_token = Some 0%nat /\
  sessions w !! demo_token = Some 0%nat /\
  trace w = trace world_fed ++
    [ClientWrite 1
       (frame_of TYPE_CTRL (demo_dumps (PDict [("error", PStr "Connection lost")])));
     ClientClose 1; MudClose 7].
Proof. repeat split; by_computation. Qed.

(** The handshake for a new session on the empty world, dial refused. *)
Lemma refused_dial_keeps_entry_witness :
  let f := frame_of TYPE_CTRL
             (demo_dumps (PDict [("error", PStr "Connection refused")])) in
  handle_client (codec := demo_codec) 1 1 (frame_of TYPE_CTRL new_text) demo_token
    DialRefused world0 =
  (Ok tt,
   mkWorld (<[demo_token := 0%nat]> (sessions world0))
     (heap world0 ++ [mkSession demo_token [] (PInt 0) 0 (Some 1%nat) None None
                        (clock world0) (Some (ReadMud 0))])
     (trace world0 ++ [CreateTask (ReadMud 0); ClientWrite 1 f; ClientClose 1])
     (clock world0)) /\
  sessions (exec (handle_client (codec := demo_codec) 1 1
                    (frame_of TYPE_CTRL new_text) demo_token DialRefused) world0)
    !! demo_token = Some 0%nat.
Proof.
  apply (refused_dial_keeps_entry (codec := demo_codec) 1 1
           (frame_of TYPE_CTRL new_text) demo_token world0 new_text []
           (PDict [("new", PBool true)])); reflexivity.
Defined.

(** C6 as stated fails.  A client sends the handshake for a new session
    and the dial is refused: it is sent the error frame and closed, and
    the registry, empty before, now holds the entry of the session. *)
Lemma refused_dial_entry_remains :
  let w := exec (handle_client (codec := demo_codec) 1 1
                   (frame_of TYPE_CTRL new_text) demo_token DialRefused) world0 in
  sessions world0 !! demo_token = None /\
  sessions w !! demo_token = Some 0%nat /\
  trace w =
    [CreateTask (ReadMud 0);
     ClientWrite 1
       (frame_of TYPE_CTRL (demo_dumps (PDict [("error", PStr "Connection refused")])));
     ClientClose 1].
Proof. repeat split; by_computation. Qed.

(** C4 fails on the code.  The first frame is a Control frame whose
    payload is the JSON object without members: it has neither [new]
    nor [resume].  The handler sends no error frame and does not close
    the connection: it creates a session, registers it, dials and
    attaches the client. *)
Lemma empty_object_handshake_opens_session :
  demo_loads empty_text = Some (PDict []) /\
  handle_client (codec := demo_codec) 1 1 (frame_of TYPE_CTRL empty_text) demo_token
    (DialOk 7 7) world0 =
  (Ok tt,
   mkWorld (<[demo_token := 0%nat]> ∅)
     [mkSession demo_token [] (PInt 0) 0 (Some 1%nat) (Some 7%nat) (Some 7%nat) 0%Q
        (Some (ReadMud 0))]
     [CreateTask (ReadMud 0); ClientWrite 1 demo_token_frame;
      CreateTask (ReadClient 0 1)]
     0%Q).
Proof. split; by_computation. Qed.

(** ** The handshake reads one frame *)

Create HintDb quiet.

Lemma quiet_ret {A : Type} (a : A) : quiet (mret a).
Proof. intros w. exists []. by rewrite app_nil_r. Qed.

Lemma quiet_bind {A B : Type} (m : M A) (k : A -> M B) :
  quiet m -> (forall a, quiet (k a)) -> quiet (m ≫= k).
Proof.
  intros Hm Hk w. unfold mbind, M_bind. destruct (Hm w) as (es & Hes & Hq).
  destruct (m w) as [[a|e] w1]; simpl in *; [|by exists es].
  destruct (Hk a w1) as (es' & Hes' & Hq'). exists (es ++ es').
  rewrite Hes', Hes, app_assoc. split; [done|]. by apply Forall_app.
Qed.

Lemma quiet_try_except {A : Type} (m h : M A) :
  quiet m -> quiet h -> quiet (try_except m h).
Proof.
  intros Hm Hh w. unfold try_except. destruct (Hm w) as (es & Hes & Hq).
  destruct (m w) as [[a|e] w1]; simpl in *; [by exists es|].
  destruct (Hh w1) as (es' & Hes' & Hq'). exists (es ++ es').
  rewrite Hes', Hes, app_assoc. split; [done|]. by apply Forall_app.
Qed.

Lemma quiet_silent {A : Type} (m : M A) :
  (forall w, trace (snd (m w)) = trace w) -> quiet m.
Proof. intros Hm w. exists []. by rewrite app_nil_r, Hm. Qed.

Lemma quiet_lift {A : Type} (r : result A) : quiet (lift r).
Proof. by apply quiet_silent. Qed.

Lemma quiet_raise {A : Type} (e : exn) : quiet (raise (A := A) e).
Proof. by apply quiet_silent. Qed.

Lemma quiet_deref (self : addr) : quiet (deref self).
Proof. apply quiet_silent. intros w. unfold deref. by destruct (heap w !! self). Qed.

Lemma quiet_setattr (self : addr) (f : Session -> Session) : quiet (setattr self f).
Proof. by apply quiet_silent. Qed.

Lemma quiet_time_time : quiet time_time.
Proof. by apply quiet_silent. Qed.

Lemma quiet_Session_init (session_id : string) : quiet (Session_init session_id).
Proof. by apply quiet_silent. Qed.

Lemma quiet_sessions_set (session_id : string) (a : addr) :
  quiet (sessions_set session_id a).
Proof. by apply quiet_silent. Qed.

Lemma quiet_sessions_get (token : pyval) : quiet (sessions_get token).
Proof. apply quiet_silent. intros w. by destruct token. Qed.

Lemma quiet_emit (e : event) : no_mud_write e -> quiet (emit e).
Proof. intros He w. exists [e]. split; [done|]. by constructor. Qed.

#[local] Hint Resolve quiet_ret quiet_lift quiet_raise quiet_deref quiet_setattr
  quiet_time_time quiet_Session_init quiet_sessions_set quiet_sessions_get
  quiet_try_except : quiet.

(** Goes through a run built from binds, matches and the primitives. *)
Ltac quiet_run :=
  repeat first
    [ progress intros
    | progress cbv zeta
    | solve [eauto with quiet]
    | apply quiet_emit; exact I
    | apply quiet_bind
    | match goal with
      | |- quiet (match ?x with _ => _ end) => destruct x
      end ].

Section HandshakeClaims.
Context {codec : JsonCodec}.

Lemma quiet_send_to_client (self : addr) (frame_type : Z) (data : bytes) :
  quiet (_send_to_client self frame_type data).
Proof. unfold _send_to_client. quiet_run. Qed.

Lemma quiet_handle_mud_disconnect (self : addr) (error : string) :
  quiet (_handle_mud_disconnect self error).
Proof.
  pose proof quiet_send_to_client. unfold _handle_mud_disconnect. quiet_run.
Qed.

Lemma quiet_replay_from (self : addr) (skip : Z) (chunks : list bytes) :
  quiet (replay_from self skip chunks).
Proof.
  pose proof quiet_send_to_client.
  revert skip. induction chunks as [|c rest IH]; intros skip; simpl; quiet_run.
Qed.

Lemma quiet_replay_all (self : addr) (chunks : list bytes) :
  quiet (replay_all self chunks).
Proof.
  pose proof quiet_send_to_client.
  induction chunks as [|c rest IH]; simpl; quiet_run.
Qed.

Lemma quiet_attach_client (self : addr) (reader writer : client_conn)
    (resume_offset : pyval) :
  quiet (attach_client self reader writer resume_offset).
Proof.
  pose proof quiet_send_to_client. pose proof quiet_handle_mud_disconnect.
  pose proof quiet_replay_from. pose proof quiet_replay_all.
  unfold attach_client. quiet_run.
Qed.

Lemma quiet_connect_to_mud (self : addr) (dial : dial_outcome) :
  quiet (connect_to_mud self dial).
Proof. unfold connect_to_mud. quiet_run. Qed.

Lemma quiet_reject (writer : client_conn) (reason : string) :
  quiet (reject writer reason).
Proof. unfold reject. quiet_run. Qed.

Lemma quiet_handle_client (reader writer : client_conn) (data : bytes)
    (session_id : string) (dial : dial_outcome) :
  quiet (handle_client reader writer data session_id dial).
Proof.
  pose proof quiet_attach_client. pose proof quiet_connect_to_mud.
  pose proof quiet_reject. unfold handle_client. quiet_run.
Qed.

(** C10.  The handshake handler takes its one read [data] and looks at
    the first decoded frame only.  If [data] holds a complete frame, the
    handler does exactly what it does when [data] is the encoding of that
    first frame alone, down to the final world and the result: further
    complete frames and trailing partial bytes have no effect at all.
    The client relay loop run after the handshake therefore also does
    the same on the same later reads.  If [data] holds no complete frame
    the handler rejects the connection.  In every case the handler
    writes nothing to the upstream connection, and the client relay loop
    it may start begins with an empty decode buffer. *)
Theorem handshake_uses_first_frame_only (reader writer : client_conn)
    (data : bytes) (session_id : string) (dial : dial_outcome) (w : World) :
  match fst (unpack_frames data) with
  | f :: _ =>
      exists e, pack_frame (fst f) (snd f) = Ok e /\
                unpack_frames e = ([f], []) /\
                handle_client reader writer data session_id dial w =
                handle_client reader writer e session_id dial w /\
                forall (self : addr) (reads : list bytes),
                  (handle_client reader writer data session_id dial;;
                   _read_client self reads) w =
                  (handle_client reader writer e session_id dial;;
                   _read_client self reads) w
  | [] =>
      handle_client reader writer data session_id dial w =
      reject writer "Missing control frame" w
  end /\
  quiet (handle_client reader writer data session_id dial) /\
  forall (self : addr) (reads : list bytes),
    _read_client self reads = _read_client_loop self [] reads.
Proof.
  split; [|split; [apply quiet_handle_client|done]].
  destruct (fst (unpack_frames data)) as [|f rest] eqn:Hfr.
  - unfold handle_client. by rewrite Hfr.
  - destruct (unpack_frames_pack data) as (es & Hes & _).
    rewrite Hfr in Hes. simpl in Hes.
    destruct (pack_frame (fst f) (snd f)) as [e|] eqn:He; [|done].
    assert (Hun : unpack_frames e = ([f], [])).
    { rewrite <- (app_nil_r e), (unpack_frames_packed _ _ _ _ He).
      destruct f. by simp unpack_frames. }
    assert (Heq : handle_client reader writer data session_id dial w =
                  handle_client reader writer e session_id dial w).
    { unfold handle_client. by rewrite Hfr, Hun. }
    exists e. repeat split; [done..|].
    intros self reads. unfold mbind, M_bind. by rewrite Heq.
Qed.

End HandshakeClaims.

(** A first read that holds the handshake frame, a Data frame, a
    Control frame and two bytes of a further frame is handled as the
    handshake frame alone. *)
Lemma handshake_uses_first_frame_only_witness :
  handle_client (codec := demo_codec) 1 1
    (frame_of TYPE_CTRL new_text ++ frame_of TYPE_DATA (text "look")
     ++ frame_of TYPE_CTRL (ack_text "15") ++ [x00; x00])
    demo_token (DialOk 7 7) world0 =
  handle_client (codec := demo_codec) 1 1 (frame_of TYPE_CTRL new_text)
    demo_token (DialOk 7 7) world0.
Proof.
  destruct (handshake_uses_first_frame_only (codec := demo_codec) 1 1
              (frame_of TYPE_CTRL new_text ++ frame_of TYPE_DATA (text "look")
               ++ frame_of TYPE_CTRL (ack_text "15") ++ [x00; x00])
              demo_token (DialOk 7 7) world0) as [H _].
  assert (Hfr : fst (unpack_frames
                  (frame_of TYPE_CTRL new_text ++ frame_of TYPE_DATA (text "look")
                   ++ frame_of TYPE_CTRL (ack_text "15") ++ [x00; x00]))
                = [(TYPE_CTRL, new_text); (TYPE_DATA, text "look");
                   (TYPE_CTRL, ack_text "15")]) by by_computation.
  rewrite Hfr in H. destruct H as (e & He & _ & Heq & _).
  assert (He' : pack_frame TYPE_CTRL new_text = Ok (frame_of TYPE_CTRL new_text))
    by by_computation.
  simpl fst in He. simpl snd in He. rewrite He' in He. injection He as <-.
  exact Heq.
Defined.

(** * Further properties of the code *)

(** ** Frame codec *)

Lemma struct_pack_BH_inv (b h : Z) (hdr : bytes) :
  struct_pack_BH b h = Ok hdr -> 0 <= b <= 255 /\ 0 <= h <= 65535.
Proof.
  unfold struct_pack_BH.
  destruct ((0 <=? b) && (b <=? 255) && (0 <=? h) && (h <=? 65535)) eqn:Hc; [|done].
  rewrite !andb_true_iff, !Z.leb_le in Hc. lia.
Qed.

Lemma pack_frame_inv (frame_type : Z) (payload e : bytes) :
  pack_frame frame_type payload = Ok e ->
  0 <= frame_type <= 255 /\ len payload <= 65535 /\ len e = 3 + len payload.
Proof.
  unfold pack_frame. intros Hp.
  destruct (struct_pack_BH frame_type (len payload)) as [hdr|] eqn:Hh; [|done].
  injection Hp as <-. destruct (struct_pack_BH_inv _ _ _ Hh) as [Hb Hl].
  destruct (struct_pack_unpack _ _ Hb Hl) as (x & hi & lo & Hh' & _).
  rewrite Hh in Hh'. injection Hh' as ->. repeat split; try lia.
  unfold len. simpl. lia.
Qed.

Lemma pack_frames_inv (fs : list frame) (e : bytes) :
  pack_frames fs = Ok e ->
  Forall (fun f => 0 <= fst f <= 255 /\ len (snd f) <= 65535) fs.
Proof.
  revert e. induction fs as [|f fs IH]; intros e Hp; [constructor|].
  simpl in Hp. destruct (pack_frame (fst f) (snd f)) as [e1|] eqn:H1; [|done].
  destruct (pack_frames fs) as [e2|] eqn:H2; [|done].
  constructor; [|by eapply IH]. apply pack_frame_inv in H1. tauto.
Qed.

(** X1.  [pack_frame] succeeds exactly when the frame type fits one
    unsigned byte and the payload length fits the two-byte length field;
    otherwise it raises [struct.error] and produces nothing.  When it
    succeeds, the encoding is three header bytes followed by the payload
    unchanged, and the header read back gives the type and the length. *)
Theorem pack_frame_succeeds_iff (frame_type : Z) (payload : bytes) :
  ((exists e, pack_frame frame_type payload = Ok e) <->
   0 <= frame_type <= 255 /\ len payload <= 65535) /\
  (forall e, pack_frame frame_type payload = Ok e ->
     exists x hi lo, e = x :: hi :: lo :: payload /\
       struct_unpack_BH x hi lo = (frame_type, len payload)) /\
  (forall ex, pack_frame frame_type payload = Raise ex -> ex = StructError).
Proof.
  split; [split|split].
  - intros [e He]. apply pack_frame_inv in He. tauto.
  - intros [Hb Hl]. unfold pack_frame.
    assert (Hl' : 0 <= len payload <= 65535) by (unfold len in *; lia).
    destruct (struct_pack_unpack _ _ Hb Hl') as (x & hi & lo & -> & _). eauto.
  - intros e He. pose proof (pack_frame_inv _ _ _ He) as (Hb & Hl & _).
    assert (Hl' : 0 <= len payload <= 65535) by (unfold len in *; lia).
    destruct (struct_pack_unpack _ _ Hb Hl') as (x & hi & lo & Hh & Hu).
    unfold pack_frame in He. rewrite Hh in He. injection He as <-.
    by exists x, hi, lo.
  - intros ex. unfold pack_frame, struct_pack_BH.
    repeat case_match; congruence.
Qed.

(** X2.  Whatever bytes [unpack_frames] is given, it accounts for all of
    them: the frames it returns, encoded again in order, followed by the
    remainder are the input.  Every returned frame has a type in 0..255
    (any type byte is accepted, not only Data and Control) and a payload
    of at most 65535 bytes; and the remainder holds no complete frame: it
    is shorter than a header, or shorter than the frame its header
    declares. *)
Theorem unpack_frames_accounts_for_input (data : bytes) :
  (exists e, pack_frames (fst (unpack_frames data)) = Ok e
             /\ e ++ snd (unpack_frames data) = data) /\
  Forall (fun f => 0 <= fst f <= 255 /\ len (snd f) <= 65535)
    (fst (unpack_frames data)) /\
  (len (snd (unpack_frames data)) < 3 \/
   exists x hi lo rest,
     snd (unpack_frames data) = x :: hi :: lo :: rest /\
     len (snd (unpack_frames data)) < 3 + snd (struct_unpack_BH x hi lo)).
Proof.
  destruct (unpack_frames_pack data) as (e & He & Hrem).
  split; [by exists e|]. split; [by eapply pack_frames_inv|].
  pose proof (unpack_frames_rem_stuck data) as Hstuck.
  destruct (snd (unpack_frames data)) as [|x [|hi [|lo rest]]] eqn:Hr;
    try (left; unfold len; simpl; lia).
  right. exists x, hi, lo, rest. split; [done|].
  rewrite unpack_frames_step in Hstuck.
  destruct (len (x :: hi :: lo :: rest) <? 3 + snd (struct_unpack_BH x hi lo)) eqn:E.
  - by apply Z.ltb_lt in E.
  - simpl in Hstuck. discriminate.
Qed.

(** X3.  Decoding is incremental on arbitrary input, not only on the
    encodings of valid frames: for any bytes cut into any chunks,
    feeding the chunks one by one with the remainder carried gives the
    frames and the remainder of decoding the whole; and bytes that arrive
    later never change the frames already decoded. *)
Theorem decode_any_chunks (chunks : list bytes) (later : bytes) :
  decode_chunks [] chunks = unpack_frames (concat chunks) /\
  exists more,
    fst (unpack_frames (concat chunks ++ later))
    = fst (unpack_frames (concat chunks)) ++ more.
Proof.
  split.
  - rewrite decode_chunks_whole; [done|by simp unpack_frames].
  - rewrite (unpack_frames_app (concat chunks) later). simpl. eauto.
Qed.

(** ** The replay buffer *)

Lemma evict_bound (buffer : list bytes) : sum_len (evict buffer) <= BUFFER_LIMIT.
Proof.
  induction buffer as [|c rest IH]; [by unfold BUFFER_LIMIT|]. cbn [evict].
  destruct (sum_len (c :: rest) >? BUFFER_LIMIT) eqn:E; [done|].
  rewrite Z.gtb_ltb in E. apply Z.ltb_ge in E. done.
Qed.

Lemma evict_oversized (buffer : list bytes) (data : bytes) :
  BUFFER_LIMIT < len data -> evict (buffer ++ [data]) = [].
Proof.
  intros Hbig. induction buffer as [|c rest IH].
  - cbn [app evict]. replace (sum_len [data] >? BUFFER_LIMIT) with true; [done|].
    symmetry. rewrite Z.gtb_ltb. apply Z.ltb_lt. simpl. lia.
  - cbn [app evict].
    replace (sum_len (c :: rest ++ [data]) >? BUFFER_LIMIT) with true; [done|].
    symmetry. rewrite Z.gtb_ltb. apply Z.ltb_lt.
    change (c :: rest ++ [data]) with ((c :: rest) ++ [data]).
    rewrite sum_len_app. pose proof (sum_len_nonneg (c :: rest)). simpl in *. lia.
Qed.

(** X4.  [_append_buffer] adds the length of the data to [total_bytes]
    and leaves in the buffer a suffix of the old chunks followed by the
    new one, never more than [BUFFER_LIMIT] bytes in all.  When old and
    new bytes fit the limit nothing is dropped; a single chunk larger
    than the limit is dropped itself, leaving the buffer empty.  The
    acknowledged offset and the connections are not touched. *)
Theorem append_buffer_bounded (self : addr) (w : World) (s : Session) (data : bytes) :
  heap w !! self = Some s ->
  exists s',
    _append_buffer self data w = (Ok tt, put self s' w) /\
    total_bytes s' = total_bytes s + len data /\
    (exists dropped, buffer s ++ [data] = dropped ++ buffer s') /\
    sum_len (buffer s') <= BUFFER_LIMIT /\
    (sum_len (buffer s) + len data <= BUFFER_LIMIT ->
     buffer s' = buffer s ++ [data]) /\
    (BUFFER_LIMIT < len data -> buffer s' = []) /\
    ack_offset s' = ack_offset s /\
    client_writer s' = client_writer s /\
    mud_writer s' = mud_writer s.
Proof.
  intros Hs. exists (appended data s).
  split; [by apply append_buffer_run|]. simpl. repeat split.
  - apply evict_suffix.
  - apply evict_bound.
  - intros Hfit. apply evict_small. rewrite sum_len_app. simpl. lia.
  - apply evict_oversized.
Qed.

(** Thirty more bytes on the example session that holds thirty. *)
Lemma append_buffer_bounded_witness :
  exists s, heap world_fed !! 0%nat = Some s /\
  exists s',
    _append_buffer 0 (octets 30 10) world_fed = (Ok tt, put 0 s' world_fed) /\
    total_bytes s' = total_bytes s + len (octets 30 10) /\
    (exists dropped, buffer s ++ [octets 30 10] = dropped ++ buffer s') /\
    sum_len (buffer s') <= BUFFER_LIMIT /\
    (sum_len (buffer s) + len (octets 30 10) <= BUFFER_LIMIT ->
     buffer s' = buffer s ++ [octets 30 10]) /\
    (BUFFER_LIMIT < len (octets 30 10) -> buffer s' = []) /\
    ack_offset s' = ack_offset s /\
    client_writer s' = client_writer s /\
    mud_writer s' = mud_writer s.
Proof.
  eexists. split; [reflexivity|].
  apply (append_buffer_bounded 0 world_fed _ (octets 30 10)). reflexivity.
Defined.

(** X5.  Eviction does not look at the acknowledged offset: when the
    retained bytes and the new data exceed [BUFFER_LIMIT], the oldest
    chunk is dropped and the window start moves past it, whatever
    [ack_offset] is, and [ack_offset] stays as it was.  Bytes that were
    never acknowledged are lost this way. *)
Theorem eviction_ignores_ack (self : addr) (w : World) (s : Session)
    (data c : bytes) (rest : list bytes) :
  heap w !! self = Some s ->
  buffer s = c :: rest ->
  BUFFER_LIMIT < sum_len (buffer s) + len data ->
  exists s',
    _append_buffer self data w = (Ok tt, put self s' w) /\
    ack_offset s' = ack_offset s /\
    window_start s + len c <= window_start s'.
Proof.
  intros Hs Hb Hover. exists (appended data s).
  split; [by apply append_buffer_run|]. split; [done|].
  unfold window_start. simpl. rewrite Hb in *. cbn [app evict].
  replace (sum_len (c :: rest ++ [data]) >? BUFFER_LIMIT) with true.
  2:{ symmetry. rewrite Z.gtb_ltb. apply Z.ltb_lt.
      change (c :: rest ++ [data]) with ((c :: rest) ++ [data]).
      rewrite sum_len_app. simpl in *. lia. }
  destruct (evict_suffix (rest ++ [data])) as [dr Hdr].
  pose proof (f_equal sum_len Hdr) as Hsum. rewrite !sum_len_app in Hsum.
  pose proof (sum_len_nonneg dr). simpl in *. lia.
Qed.

(** The full buffer of sixty-four unacknowledged chunks takes one more
    byte: the first kilobyte is gone although [ack_offset] is 0. *)
Lemma eviction_ignores_ack_witness :
  exists s',
    _append_buffer 0 [x41] world_full = (Ok tt, put 0 s' world_full) /\
    ack_offset s' = ack_offset full_session /\
    window_start full_session + len (replicate 1024 x00) <= window_start s'.
Proof.
  apply (eviction_ignores_ack 0 world_full full_session [x41]
           (replicate 1024 x00) (replicate 63 (replicate 1024 x00)));
    by_computation.
Defined.

Lemma trim_loop_spec (a cur : Z) (buf : list bytes) :
  let left := snd (trim_loop (PInt a) cur buf) in
  let cur' := cur + sum_len buf - sum_len left in
  cur <= cur' /\ cur' <= Z.max cur a /\
  (left = [] \/ exists c rest, left = c :: rest /\ a < cur' + len c) /\
  trim_loop (PInt a) cur' left = (Ok tt, left).
Proof.
  revert cur. induction buf as [|c buf IH]; intros cur; cbn [trim_loop as_int].
  - simpl. repeat split; try lia. by left.
  - destruct (cur + len c <=? a) eqn:E.
    + apply Z.leb_le in E. specialize (IH (cur + len c)). cbv zeta in IH.
      destruct IH as (H1 & H2 & H3 & H4). cbv zeta.
      replace (cur + sum_len (c :: buf)
               - sum_len (snd (trim_loop (PInt a) (cur + len c) buf)))
        with (cur + len c + sum_len buf
              - sum_len (snd (trim_loop (PInt a) (cur + len c) buf)))
        by (simpl; lia).
      assert (0 <= len c) by (unfold len; lia). repeat split; try done; lia.
    + apply Z.leb_gt in E. cbv zeta. cbn [snd].
      replace (cur + sum_len (c :: buf) - sum_len (c :: buf)) with cur by lia.
      repeat split; try lia.
      * right. by exists c, buf.
      * cbn [trim_loop as_int].
        by replace (cur + len c <=? a) with false by (symmetry; by apply Z.leb_gt).
Qed.

(** X8.  With an integer acknowledged offset, [_trim_buffer] removes
    chunks from the front only and never past the acknowledged offset:
    the window start does not go back and does not exceed the larger of
    the old window start and the offset, so every byte from the offset on
    stays.  It removes all it may: the first chunk left, if any, ends
    after the offset.  Trimming again changes nothing. *)
Theorem trim_buffer_keeps_unacknowledged (self : addr) (w : World) (s : Session)
    (a : Z) :
  heap w !! self = Some s ->
  ack_offset s = PInt a ->
  exists s',
    _trim_buffer self w = (Ok tt, put self s' w) /\
    total_bytes s' = total_bytes s /\
    (exists dropped, buffer s = dropped ++ buffer s') /\
    window_start s <= window_start s' <= Z.max (window_start s) a /\
    (buffer s' = [] \/
     exists c rest, buffer s' = c :: rest /\ a < window_start s' + len c) /\
    _trim_buffer self (put self s' w) = (Ok tt, put self s' w).
Proof.
  intros Hs Ha.
  pose proof (trim_loop_spec a (window_start s) (buffer s)) as Hspec.
  cbv zeta in Hspec. destruct Hspec as (H1 & H2 & H3 & H4).
  destruct (trim_loop_int a (window_start s) (buffer s)) as [Hok Hsuf].
  set (left := snd (trim_loop (PInt a) (window_start s) (buffer s))) in *.
  assert (Hws : window_start (set_buffer left s)
                = window_start s + sum_len (buffer s) - sum_len left).
  { unfold window_start. simpl. lia. }
  exists (set_buffer left s). repeat split; try done.
  - unfold _trim_buffer. unfold mbind, M_bind, setattr, lift.
    rewrite (deref_run _ _ _ Hs), Ha. fold (window_start s). fold left.
    by rewrite Hok, (store_put _ _ _ _ Hs).
  - by rewrite Hws.
  - by rewrite Hws.
  - rewrite Hws. exact H3.
  - unfold _trim_buffer. unfold mbind, M_bind, setattr, lift.
    erewrite deref_run by (by eapply heap_put).
    cbn [ack_offset total_bytes buffer set_buffer]. rewrite Ha.
    replace (total_bytes s - sum_len left)
      with (window_start s + sum_len (buffer s) - sum_len left)
      by (unfold window_start; lia).
    rewrite H4. cbn [fst snd]. rewrite (store_over_put _ _ _ _ _ Hs). done.
Qed.

(** The example session holds thirty bytes and has acknowledged 15. *)
Lemma trim_buffer_keeps_unacknowledged_witness :
  exists s, heap world_acked !! 0%nat = Some s /\
  exists s',
    _trim_buffer 0 world_acked = (Ok tt, put 0 s' world_acked) /\
    total_bytes s' = total_bytes s /\
    (exists dropped, buffer s = dropped ++ buffer s') /\
    window_start s <= window_start s' <= Z.max (window_start s) 15 /\
    (buffer s' = [] \/
     exists c rest, buffer s' = c :: rest /\ 15 < window_start s' + len c) /\
    _trim_buffer 0 (put 0 s' world_acked) = (Ok tt, put 0 s' world_acked).
Proof.
  eexists. split; [reflexivity|].
  apply (trim_buffer_keeps_unacknowledged 0 world_acked _ 15); reflexivity.
Defined.

(** ** The relay loops *)

Section RelayProperties.
Context {codec : JsonCodec}.

Lemma read_mud_turn_data_run (self : addr) (w : World) (s : Session)
    (r : mud_conn) (data f : bytes) :
  heap w !! self = Some s ->
  mud_reader s = Some r ->
  data <> [] ->
  pack_frame TYPE_DATA data = Ok f ->
  _read_mud_turn self (ReadBytes data) w =
  (Ok Continue,
   log (match client_writer s with
        | Some c => [ClientWrite c f]
        | None => []
        end) (put self (appended data s) w)).
Proof.
  intros Hs Hr Hd Hf. unfold _read_mud_turn. unfold mbind at 1, M_bind.
  rewrite (deref_run _ _ _ Hs), Hr. destruct data as [|b data']; [done|].
  unfold mbind, M_bind. rewrite (append_buffer_run _ _ _ _ Hs).
  erewrite send_to_client_run by (by eapply heap_put).
  cbn [appended client_writer set_buffer set_total_bytes].
  destruct (client_writer s); [by rewrite Hf|]. by rewrite log_nil.
Qed.

(** X6.  One turn of the upstream loop on a chunk of 1 to 1024 bytes:
    the chunk is appended to the buffer and, if a client is attached,
    sent to it as exactly one Data frame carrying the chunk; with no
    client attached nothing is written.  The loop goes on.  If the buffer
    was the tail of the upstream stream, it is the tail of the stream
    extended by the chunk, and its chunks are still upstream reads. *)
Theorem read_mud_buffers_and_forwards (self : addr) (w : World) (s : Session)
    (r : mud_conn) (data stream : bytes) :
  heap w !! self = Some s ->
  mud_reader s = Some r ->
  read_chunk data ->
  Forall read_chunk (buffer s) ->
  represents s stream ->
  exists f,
    pack_frame TYPE_DATA data = Ok f /\
    _read_mud_turn self (ReadBytes data) w =
    (Ok Continue,
     log (match client_writer s with
          | Some c => [ClientWrite c f]
          | None => []
          end) (put self (appended data s) w)) /\
    represents (appended data s) (stream ++ data) /\
    Forall read_chunk (buffer (appended data s)).
Proof.
  intros Hs Hr Hd Hb Hrep.
  destruct (pack_data_frame data) as [f Hf]; [unfold read_chunk in Hd; lia|].
  exists f. split; [done|].
  split; [|split; [by apply represents_appended|by apply read_chunks_appended]].
  apply (read_mud_turn_data_run _ _ _ r); try done.
  intros ->. unfold read_chunk, len in Hd. simpl in Hd. lia.
Qed.

(** X7.  After a refused dial [connect_to_mud] still starts the upstream
    task, and that task ends at once with [AttributeError], whatever the
    upstream would have sent: the session has no upstream reader.
    Nothing else happens. *)
Theorem read_mud_after_refused_dial (self : addr) (w : World) (s : Session)
    (r : read_outcome) (reads : list read_outcome) :
  heap w !! self = Some s ->
  mud_reader s = None ->
  (connect_to_mud self DialRefused;; _read_mud self (r :: reads)) w =
  (Raise AttributeError,
   put self (set_mud_task (Some (ReadMud self)) s)
     (log [CreateTask (ReadMud self)] w)).
Proof.
  intros Hs Hr. unfold connect_to_mud. mstep.
  rewrite (store_put _ _ (log _ w) s) by done.
  unfold _read_mud_turn. mstep.
  erewrite deref_run by (by eapply heap_put). simpl. by rewrite Hr.
Qed.

Lemma set_buffer_same (s : Session) (b : list bytes) :
  buffer s = b -> set_buffer b s = s.
Proof. destruct s. simpl. by intros ->. Qed.

(** X9.  A control message whose [ack] member is not a number (null, a
    string, a list, an object) is stored as the acknowledged offset all
    the same.  With an empty buffer nothing is compared and the call
    ends normally; with a non-empty buffer the comparison in
    [_trim_buffer] raises [TypeError], which leaves [_handle_control]
    with the offset already overwritten, the buffer whole and
    [last_active] not refreshed. *)
Theorem non_number_ack_raises (self : addr) (w : World) (s : Session)
    (payload : bytes) (d : list (string * pyval)) (v : pyval) :
  heap w !! self = Some s ->
  json_loads payload = Some (PDict d) ->
  dict_get d "ack" = Some v ->
  as_int v = Raise TypeError ->
  _handle_control self payload w =
  match buffer s with
  | [] => (Ok tt, put self (set_last_active (clock w) (set_ack_offset v s)) w)
  | _ :: _ => (Raise TypeError, put self (set_ack_offset v s) w)
  end.
Proof.
  intros Hs Hl Hd Hv. unfold _handle_control, py_in, py_getitem. rewrite Hl, Hd.
  mstep. unfold _trim_buffer. mstep. rewrite (store_put _ _ _ _ Hs).
  erewrite deref_run by (by eapply heap_put). mstep.
  destruct (buffer s) as [|c rest] eqn:Hb; cbn [trim_loop fst snd].
  - rewrite !(store_over_put _ _ _ _ _ Hs).
    by rewrite (set_buffer_same (set_ack_offset v s)).
  - rewrite Hv. cbn [fst snd]. rewrite (store_over_put _ _ _ _ _ Hs).
    by rewrite (set_buffer_same (set_ack_offset v s)).
Qed.

(** X10.  A control message that is a JSON object without an [ack]
    member changes nothing but [last_active], which is set to the
    current time: the buffer, the acknowledged offset and the
    connections stay, and nothing is written. *)
Theorem control_without_ack_refreshes (self : addr) (w : World) (s : Session)
    (payload : bytes) (d : list (string * pyval)) :
  heap w !! self = Some s ->
  json_loads payload = Some (PDict d) ->
  dict_get d "ack" = None ->
  _handle_control self payload w =
  (Ok tt, put self (set_last_active (clock w) s) w).
Proof.
  intros Hs Hl Hd. unfold _handle_control, py_in. rewrite Hl, Hd. mstep.
  by rewrite (store_put _ _ _ _ Hs).
Qed.

Lemma for_frames_data (self : addr) (w : World) (s : Session) (m : mud_conn)
    (fs : list frame) :
  heap w !! self = Some s -> mud_writer s = Some m ->
  Forall (fun f => fst f = TYPE_DATA) fs ->
  for_frames self fs w = (Ok tt, log (MudWrite m <$> (snd <$> fs)) w).
Proof.
  intros Hs Hm Hall. revert w Hs. induction Hall as [|f fs Hf _ IH]; intros w Hs.
  - simpl. mstep. by rewrite log_nil.
  - cbn [for_frames]. unfold mbind at 1, M_bind. unfold on_client_frame.
    rewrite Hf. cbn [Z.eqb TYPE_DATA]. unfold mbind at 1, M_bind.
    rewrite (deref_run _ _ _ Hs), Hm. unfold emit.
    rewrite (IH (log [MudWrite m (snd f)] w) Hs). by rewrite log_log.
Qed.

Lemma read_client_loop_data (self : addr) (s : Session) (m : mud_conn)
    (reads : list bytes) :
  mud_writer s = Some m ->
  Forall (fun r => r <> []) reads ->
  forall (buf : bytes) (w : World),
    heap w !! self = Some s ->
    Forall (fun f => fst f = TYPE_DATA) (fst (decode_chunks buf reads)) ->
    _read_client_loop self buf reads w =
    (Ok tt, log (MudWrite m <$> (snd <$> fst (decode_chunks buf reads))) w).
Proof.
  intros Hm Hne. induction Hne as [|data reads Hd _ IH]; intros buf w Hs Hall.
  - simpl. mstep. by rewrite log_nil.
  - destruct data as [|b data]; [done|]. cbn [_read_client_loop decode_chunks] in *.
    cbv zeta in *. cbn [fst snd] in *. apply Forall_app in Hall as [Hall1 Hall2].
    unfold mbind, M_bind. rewrite (for_frames_data _ _ _ _ _ Hs Hm Hall1).
    rewrite (IH _ (log _ w) Hs Hall2). by rewrite log_log, !fmap_app.
Qed.

(** X13.  The client loop hands the payloads of the client's Data
    frames to the upstream writer, one write per frame, in the order
    the frames were sent, however the encoded bytes are split over the
    reads; it changes no session state and writes nothing to the
    client. *)
Theorem client_data_reaches_upstream (self : addr) (w : World) (s : Session)
    (m : mud_conn) (fs : list frame) (reads : list bytes) :
  heap w !! self = Some s ->
  mud_writer s = Some m ->
  Forall (fun f => fst f = TYPE_DATA) fs ->
  pack_frames fs = Ok (concat reads) ->
  Forall (fun r => r <> []) reads ->
  _read_client self reads w = (Ok tt, log (MudWrite m <$> (snd <$> fs)) w).
Proof.
  intros Hs Hm Hdata Hpack Hne. unfold _read_client.
  assert (Hdec : decode_chunks [] reads = (fs, [])).
  { rewrite decode_chunks_whole by (by simp unpack_frames). simpl.
    by apply unpack_frames_packed_all. }
  rewrite (read_client_loop_data self s m reads Hm Hne [] w Hs); rewrite Hdec; done.
Qed.

(** X11.  In the client loop a frame of a kind other than Data and
    Control is dropped, and so is a Control frame whose payload
    [json.loads] rejects: the world is unchanged ([last_active] is not
    refreshed) and the loop goes on with the frames that follow. *)
Theorem ignored_client_frames (self : addr) (w : World) (f : frame)
    (rest : list frame) :
  (fst f <> TYPE_DATA /\ fst f <> TYPE_CTRL) \/
  (fst f = TYPE_CTRL /\ json_loads (snd f) = None) ->
  for_frames self (f :: rest) w = for_frames self rest w.
Proof.
  intros Hf. cbn [for_frames]. unfold mbind, M_bind, on_client_frame.
  destruct Hf as [[Hd Hc]|[Hc Hl]].
  - apply Z.eqb_neq in Hd, Hc. by rewrite Hd, Hc.
  - rewrite Hc. cbn [Z.eqb TYPE_CTRL TYPE_DATA]. unfold _handle_control.
    by rewrite Hl.
Qed.

(** X12.  A Control frame whose JSON value is a number, a boolean or
    null raises [TypeError] out of the client loop (the membership test
    is outside the [try]): the loop ends there with the world
    unchanged, and the frames after it in the same read are not
    processed, nor are later reads. *)
Theorem scalar_control_ends_client_loop (self : addr) (w : World)
    (buf : bytes) (payload data : bytes) (rest : list frame) (rem : bytes)
    (later : list bytes) (v : pyval) :
  data <> [] ->
  unpack_frames (buf ++ data) = ((TYPE_CTRL, payload) :: rest, rem) ->
  json_loads payload = Some v ->
  py_in "ack" v = Raise TypeError ->
  _read_client_loop self buf (data :: later) w = (Raise TypeError, w).
Proof.
  intros Hne Hun Hl Hin. destruct data as [|b data]; [done|].
  cbn [_read_client_loop]. cbv zeta. rewrite Hun. cbn [fst snd for_frames].
  unfold mbind, M_bind, on_client_frame. cbn [fst snd Z.eqb TYPE_CTRL TYPE_DATA].
  unfold _handle_control. rewrite Hl. unfold mbind, M_bind, lift. by rewrite Hin.
Qed.

(** X14.  When the client's reader reaches end-of-stream the client loop
    only forgets the client writer: nothing is written or closed, the
    upstream connection and the buffer stay, and reads that might follow
    are not looked at.  The next upstream chunk is then buffered and
    sent to nobody. *)
Theorem client_eof_detaches (self : addr) (w : World) (s : Session)
    (r : mud_conn) (buf data : bytes) (later : list bytes) :
  heap w !! self = Some s ->
  mud_reader s = Some r ->
  data <> [] ->
  _read_client_loop self buf ([] :: later) w =
    (Ok tt, put self (set_client_writer None s) w) /\
  (_read_client_loop self buf ([] :: later);;
   _read_mud_turn self (ReadBytes data)) w =
    (Ok Continue, put self (appended data (set_client_writer None s)) w).
Proof.
  intros Hs Hr Hd.
  assert (H1 : _read_client_loop self buf ([] :: later) w =
               (Ok tt, put self (set_client_writer None s) w)).
  { cbn [_read_client_loop]. unfold setattr. by rewrite (store_put _ _ _ _ Hs). }
  split; [done|]. unfold mbind at 1, M_bind. rewrite H1.
  assert (Hs' : heap (put self (set_client_writer None s) w) !! self
                = Some (set_client_writer None s)) by (by eapply heap_put).
  unfold _read_mud_turn. unfold mbind at 1, M_bind.
  rewrite (deref_run _ _ _ Hs'). cbn [mud_reader set_client_writer]. rewrite Hr.
  destruct data as [|b data]; [done|]. unfold mbind, M_bind.
  rewrite (append_buffer_run _ _ _ _ Hs').
  erewrite send_to_client_run by (by eapply heap_put).
  cbn [appended client_writer set_buffer set_total_bytes set_client_writer].
  by rewrite put_put.
Qed.

End RelayProperties.

(** The example session with client 1 attached receives ten more bytes. *)
Lemma read_mud_buffers_and_forwards_witness :
  exists s, heap world_fed !! 0%nat = Some s /\
  exists f,
    pack_frame TYPE_DATA (octets 30 10) = Ok f /\
    _read_mud_turn (codec := demo_codec) 0 (ReadBytes (octets 30 10)) world_fed =
    (Ok Continue,
     log (match client_writer s with
          | Some c => [ClientWrite c f]
          | None => []
          end) (put 0 (appended (octets 30 10) s) world_fed)) /\
    represents (appended (octets 30 10) s) (octets 0 30 ++ octets 30 10) /\
    Forall read_chunk (buffer (appended (octets 30 10) s)).
Proof.
  eexists. split; [reflexivity|].
  apply (read_mud_buffers_and_forwards (codec := demo_codec) 0 world_fed _ 7
           (octets 30 10) (octets 0 30)); try reflexivity.
  - split; by_computation.
  - repeat constructor; by_computation.
  - split; reflexivity.
Defined.

(** A fresh session, a refused dial, and an upstream that would send
    ten bytes. *)
Lemma read_mud_after_refused_dial_witness :
  exists s, heap world_fresh !! 0%nat = Some s /\
  (connect_to_mud 0 DialRefused;;
   _read_mud (codec := demo_codec) 0 [ReadBytes (octets 0 10); ReadBytes []])
    world_fresh =
  (Raise AttributeError,
   put 0 (set_mud_task (Some (ReadMud 0)) s)
     (log [CreateTask (ReadMud 0)] world_fresh)).
Proof.
  eexists. split; [reflexivity|].
  apply (read_mud_after_refused_dial (codec := demo_codec) 0 world_fresh _
           (ReadBytes (octets 0 10)) [ReadBytes []]); reflexivity.
Defined.

(** The message [{"ack": null}] on the example session, whose buffer
    holds three chunks. *)
Lemma non_number_ack_raises_witness :
  exists s, heap world_fed !! 0%nat = Some s /\
  _handle_control (codec := more_codec) 0 (ack_text "null") world_fed =
  match buffer s with
  | [] => (Ok tt, put 0 (set_last_active (clock world_fed) (set_ack_offset PNone s))
                    world_fed)
  | _ :: _ => (Raise TypeError, put 0 (set_ack_offset PNone s) world_fed)
  end.
Proof.
  eexists. split; [reflexivity|].
  apply (non_number_ack_raises (codec := more_codec) 0 world_fed _
           (ack_text "null") [("ack", PNone)] PNone); reflexivity.
Defined.

(** The message [{"ping": true}] on the example session. *)
Lemma control_without_ack_refreshes_witness :
  exists s, heap world_fed !! 0%nat = Some s /\
  _handle_control (codec := more_codec) 0
    (text "{" ++ quoted "ping" ++ text ": true}") world_fed =
  (Ok tt, put 0 (set_last_active (clock world_fed) s) world_fed).
Proof.
  eexists. split; [reflexivity|].
  apply (control_without_ack_refreshes (codec := more_codec) 0 world_fed _
           (text "{" ++ quoted "ping" ++ text ": true}") [("ping", PBool true)]);
    reflexivity.
Defined.

(** Two Data frames, [look] and [north], arrive in three reads that cut
    both headers. *)
Lemma client_data_reaches_upstream_witness :
  _read_client (codec := demo_codec) 0
    [[x00; x00]; [x04; x6c; x6f; x6f; x6b; x00]; [x00; x05; x6e; x6f; x72; x74; x68]]
    world_fed =
  (Ok tt,
   log (MudWrite 7 <$> (snd <$> [(TYPE_DATA, text "look"); (TYPE_DATA, text "north")]))
     world_fed).
Proof.
  eapply (client_data_reaches_upstream (codec := demo_codec) 0 world_fed _ 7
            [(TYPE_DATA, text "look"); (TYPE_DATA, text "north")]);
    try reflexivity.
  - by repeat constructor.
  - by repeat constructor.
Defined.

(** A Control frame with the payload [{oops], then a Data frame. *)
Lemma ignored_client_frames_witness :
  for_frames (codec := more_codec) 0
    [(TYPE_CTRL, text "{oops"); (TYPE_DATA, text "look")] world_fed =
  for_frames (codec := more_codec) 0 [(TYPE_DATA, text "look")] world_fed.
Proof.
  apply (ignored_client_frames (codec := more_codec) 0 world_fed
           (TYPE_CTRL, text "{oops") [(TYPE_DATA, text "look")]).
  right. split; reflexivity.
Defined.

(** One read holds a Control frame with the payload [7] and a Data
    frame; another read would follow. *)
Lemma scalar_control_ends_client_loop_witness :
  _read_client_loop (codec := more_codec) 0 []
    [frame_of TYPE_CTRL (text "7") ++ frame_of TYPE_DATA (text "look");
     frame_of TYPE_DATA (text "north")] world_fed
  = (Raise TypeError, world_fed).
Proof.
  apply (scalar_control_ends_client_loop (codec := more_codec) 0 world_fed []
           (text "7") (frame_of TYPE_CTRL (text "7") ++ frame_of TYPE_DATA (text "look"))
           [(TYPE_DATA, text "look")] [] [frame_of TYPE_DATA (text "north")] (PInt 7));
    by_computation.
Defined.

(** Client 1 of the example session goes away; ten more bytes arrive. *)
Lemma client_eof_detaches_witness :
  exists s, heap world_fed !! 0%nat = Some s /\
  _read_client_loop (codec := demo_codec) 0 [x01] [[]; [x00]] world_fed =
    (Ok tt, put 0 (set_client_writer None s) world_fed) /\
  (_read_client_loop (codec := demo_codec) 0 [x01] [[]; [x00]];;
   _read_mud_turn (codec := demo_codec) 0 (ReadBytes (octets 30 10))) world_fed =
    (Ok Continue,
     put 0 (appended (octets 30 10) (set_client_writer None s)) world_fed).
Proof.
  eexists. split; [reflexivity|].
  apply (client_eof_detaches (codec := demo_codec) 0 world_fed _ 7 [x01]
           (octets 30 10) [[x00]]); by_computation.
Defined.

(** ** The handshake *)

Section HandshakeProperties.
Context {codec : JsonCodec}.

Lemma log_put (es : list event) (self : addr) (s : Session) (w : World) :
  log es (put self s w) = put self s (log es w).
Proof. reflexivity. Qed.

Lemma reject_run (writer : client_conn) (reason : string) (w : World) (f : bytes) :
  pack_frame TYPE_CTRL (error_literal reason) = Ok f ->
  reject writer reason w = (Ok tt, log [ClientWrite writer f; ClientClose writer] w).
Proof.
  intros Hf. unfold reject. unfold mbind, M_bind, lift, emit. rewrite Hf.
  by rewrite log_log.
Qed.

(** X15.  A connection whose first read holds no complete frame (an
    empty read, a cut header, a cut payload) or whose first frame is not
    a Control frame is answered with one Control frame carrying
    [{"error":"Missing control frame"}] and closed.  Nothing else
    happens: no session is created, the registry is unchanged, no dial is
    made. *)
Theorem handshake_without_control_frame (reader writer : client_conn)
    (data : bytes) (session_id : string) (dial : dial_outcome) (w : World) :
  (fst (unpack_frames data) = [] \/
   exists f rest, fst (unpack_frames data) = f :: rest /\ fst f <> TYPE_CTRL) ->
  handle_client reader writer data session_id dial w =
  (Ok tt,
   log [ClientWrite writer
          (frame_of TYPE_CTRL (error_literal "Missing control frame"));
        ClientClose writer] w) /\
  unpack_frames (frame_of TYPE_CTRL (error_literal "Missing control frame"))
  = ([(TYPE_CTRL, error_literal "Missing control frame")], []).
Proof.
  intros Hfr. split; [|by vm_compute].
  assert (Hf : pack_frame TYPE_CTRL (error_literal "Missing control frame")
               = Ok (frame_of TYPE_CTRL (error_literal "Missing control frame")))
    by (by vm_compute).
  unfold handle_client. destruct Hfr as [->|(f & rest & -> & Hk)].
  - by apply reject_run.
  - destruct f as [k payload]. simpl in Hk. apply Z.eqb_neq in Hk. rewrite Hk.
    by apply reject_run.
Qed.

(** X16.  A resume request whose token is not a key of the registry (a
    string nobody holds, or a number, a boolean or null) is answered
    with one Control frame carrying [{"error":"Invalid session"}] and
    closed; the world is otherwise unchanged. *)
Theorem resume_unknown_token (reader writer : client_conn) (data : bytes)
    (session_id : string) (dial : dial_outcome) (w : World) (payload : bytes)
    (rest : list frame) (d : list (string * pyval)) (token : pyval) :
  fst (unpack_frames data) = (TYPE_CTRL, payload) :: rest ->
  json_loads payload = Some (PDict d) ->
  dict_get d "resume" = Some token ->
  match token with
  | PStr t => sessions w !! t = None
  | PNone | PBool _ | PInt _ => True
  | PList _ | PDict _ => False
  end ->
  handle_client reader writer data session_id dial w =
  (Ok tt,
   log [ClientWrite writer (frame_of TYPE_CTRL (error_literal "Invalid session"));
        ClientClose writer] w).
Proof.
  intros Hfr Hl Hd Htok.
  assert (Hf : pack_frame TYPE_CTRL (error_literal "Invalid session")
               = Ok (frame_of TYPE_CTRL (error_literal "Invalid session")))
    by (by vm_compute).
  unfold handle_client. rewrite Hfr. cbn [negb]. rewrite Z.eqb_refl. cbn [negb].
  rewrite Hl. unfold py_in, py_getitem. rewrite Hd.
  unfold mbind, M_bind, lift. cbn [bool_decide decide_rel].
  replace (bool_decide (is_Some (Some token))) with true
    by (symmetry; by apply bool_decide_eq_true).
  destruct token as [| | |t| |]; try done; unfold sessions_get; simpl;
    rewrite ?Htok; by apply reject_run.
Qed.

(** X17.  When the first frame is a Control frame whose payload is not
    well-formed UTF-8, the handler ends with [UnicodeDecodeError], raised
    by [payload.decode()]; when the payload is UTF-8 text that
    [json.loads] rejects, with the exception that [json.loads] raised;
    when the JSON value is a number, a boolean or null, with [TypeError]
    from the membership test.  In each case it sends no frame, does not
    close the connection and changes nothing. *)
Theorem handshake_bad_json_raises (reader writer : client_conn) (data : bytes)
    (session_id : string) (dial : dial_outcome) (w : World) (payload : bytes)
    (rest : list frame) :
  fst (unpack_frames data) = (TYPE_CTRL, payload) :: rest ->
  match json_loads payload with
  | None => True
  | Some v => py_in "resume" v = Raise TypeError
  end ->
  handle_client reader writer data session_id dial w =
  (Raise (match json_loads payload with
          | None => if utf8_valid payload then json_loads_error payload
                    else UnicodeDecodeError
          | Some _ => TypeError
          end), w).
Proof.
  intros Hfr Hj. unfold handle_client. rewrite Hfr. cbn [negb]. rewrite Z.eqb_refl. cbn [negb].
  destruct (json_loads payload) as [v|]; [|done].
  unfold mbind, M_bind, lift. by rewrite Hj.
Qed.

Lemma replay_all_run (self : addr) (w : World) (s : Session) (c : client_conn)
    (chunks : list bytes) :
  heap w !! self = Some s ->
  client_writer s = Some c ->
  Forall (fun chunk => len chunk <= 65535) chunks ->
  exists fs,
    replay_all self chunks w = (Ok tt, log (ClientWrite c <$> fs) w) /\
    Forall2 (fun p f => pack_frame TYPE_DATA p = Ok f) chunks fs.
Proof.
  intros Hs Hc Hall. revert w Hs.
  induction Hall as [|chunk rest Hchunk Hall IH]; intros w Hs.
  - exists []. simpl. mstep. by rewrite log_nil.
  - destruct (pack_data_frame chunk Hchunk) as [f Hf].
    destruct (IH (log [ClientWrite c f] w) Hs) as (fs & Hrun & Hfs).
    exists (f :: fs). split; [|by constructor]. cbn [replay_all].
    unfold mbind, M_bind. rewrite (send_to_client_run _ _ _ _ _ Hs), Hc, Hf, Hrun.
    by rewrite log_log.
Qed.

(** X20.  A resume attach without an offset (no [ack] member, or
    [ack] null), on a session whose upstream connection is open,
    sends the session token frame and then every retained chunk whole,
    one Data frame per chunk in buffer order, and starts the client
    loop.  The session keeps its buffer and its acknowledged offset. *)
Theorem resume_without_ack_replays_buffer (self : addr) (w : World) (s : Session)
    (reader writer : client_conn) (r m : mud_conn) (tokf : bytes) :
  heap w !! self = Some s ->
  mud_reader s = Some r -> mud_writer s = Some m ->
  pack_frame TYPE_CTRL (json_dumps (PDict [("session", PStr (session_id s))]))
    = Ok tokf ->
  Forall read_chunk (buffer s) ->
  exists fs,
    attach_client self reader writer PNone w =
    (Ok tt,
     log ([ClientWrite writer tokf] ++ (ClientWrite writer <$> fs)
          ++ [CreateTask (ReadClient self reader)])
       (put self (attached writer (clock w) s) w)) /\
    Forall2 (fun p f => pack_frame TYPE_DATA p = Ok f) (buffer s) fs.
Proof.
  intros Hs Hr Hm Htok Hchunks.
  assert (Hfit : Forall (fun chunk => len chunk <= 65535) (buffer s)).
  { eapply Forall_impl; [exact Hchunks|]. unfold read_chunk. intros c Hc. lia. }
  unfold attach_client. unfold mbind, M_bind, setattr, time_time. cbn [clock store].
  rewrite (store_put _ _ _ _ Hs), (store_over_put _ _ _ _ _ Hs).
  fold (attached writer (clock w) s).
  assert (Hs' : heap (put self (attached writer (clock w) s) w) !! self
                = Some (attached writer (clock w) s)) by (by eapply heap_put).
  rewrite (deref_run _ _ _ Hs'). cbn [attached mud_reader mud_writer set_last_active
    set_client_writer session_id buffer total_bytes]. rewrite Hr, Hm.
  rewrite (send_to_client_run _ _ _ _ _ Hs'). cbn [attached client_writer
    set_last_active set_client_writer]. rewrite Htok.
  fold (attached writer (clock w) s).
  destruct (replay_all_run self (log [ClientWrite writer tokf]
      (put self (attached writer (clock w) s) w)) (attached writer (clock w) s)
      writer (buffer s)) as (fs & Hrun & Hfs); [done|done|done|].
  exists fs. split; [|done]. rewrite Hrun. unfold emit. by rewrite !log_log.
Qed.

(** The run of [attach_client] with an integer offset or none, on a
    session whose upstream connection is open. *)
Lemma attach_client_run (self : addr) (w : World) (s : Session)
    (reader writer : client_conn) (r m : mud_conn) (tokf : bytes)
    (resume_offset : pyval) :
  heap w !! self = Some s ->
  mud_reader s = Some r -> mud_writer s = Some m ->
  pack_frame TYPE_CTRL (json_dumps (PDict [("session", PStr (session_id s))]))
    = Ok tokf ->
  Forall (fun chunk => len chunk <= 65535) (buffer s) ->
  resume_offset = PNone \/ (exists offset, resume_offset = PInt offset) ->
  exists fs,
    attach_client self reader writer resume_offset w =
    (Ok tt,
     log ([ClientWrite writer tokf] ++ (ClientWrite writer <$> fs)
          ++ [CreateTask (ReadClient self reader)])
       (put self (attached writer (clock w) s) w)).
Proof.
  intros Hs Hr Hm Htok Hfit [->|[offset ->]].
  - unfold attach_client. unfold mbind, M_bind, setattr, time_time. cbn [clock store].
    rewrite (store_put _ _ _ _ Hs), (store_over_put _ _ _ _ _ Hs).
    fold (attached writer (clock w) s).
    assert (Hs' : heap (put self (attached writer (clock w) s) w) !! self
                  = Some (attached writer (clock w) s)) by (by eapply heap_put).
    rewrite (deref_run _ _ _ Hs'). cbn [attached mud_reader mud_writer set_last_active
      set_client_writer session_id buffer total_bytes]. rewrite Hr, Hm.
    rewrite (send_to_client_run _ _ _ _ _ Hs'). cbn [attached client_writer
      set_last_active set_client_writer]. rewrite Htok.
    fold (attached writer (clock w) s).
    destruct (replay_all_run self (log [ClientWrite writer tokf]
        (put self (attached writer (clock w) s) w)) (attached writer (clock w) s)
        writer (buffer s)) as (fs & Hrun & _); [done|done|done|].
    exists fs. rewrite Hrun. unfold emit. by rewrite !log_log.
  - destruct (attach_client_offset_run self w s reader writer r m tokf offset
                Hs Hr Hm Htok Hfit) as (fs & Hrun & _).
    by exists fs.
Qed.

(** X22.  [attach_client], with an integer offset or none and on a
    session whose upstream connection is open, overwrites
    [client_writer] and does nothing about the client that was attached
    before: all events of the attach go to the new writer, so the
    previous writer is neither written to nor closed, and the next
    upstream chunk goes to the new writer only.  The relay loop of the
    previous client is not cancelled either: when it then meets
    end-of-stream it clears [client_writer], whoever is attached, so the
    new client is detached and the next upstream chunk is buffered and
    sent to nobody. *)
Theorem attach_replaces_client (self : addr) (w : World) (s : Session)
    (reader writer : client_conn) (r m : mud_conn) (tokf data : bytes)
    (resume_offset : pyval) (buf : bytes) (later : list bytes) :
  heap w !! self = Some s ->
  mud_reader s = Some r -> mud_writer s = Some m ->
  pack_frame TYPE_CTRL (json_dumps (PDict [("session", PStr (session_id s))]))
    = Ok tokf ->
  Forall read_chunk (buffer s) ->
  read_chunk data ->
  resume_offset = PNone \/ (exists offset, resume_offset = PInt offset) ->
  exists fs f,
    pack_frame TYPE_DATA data = Ok f /\
    (attach_client self reader writer resume_offset;;
     _read_mud_turn self (ReadBytes data)) w =
    (Ok Continue,
     log ([ClientWrite writer tokf] ++ (ClientWrite writer <$> fs)
          ++ [CreateTask (ReadClient self reader)] ++ [ClientWrite writer f])
       (put self (appended data (attached writer (clock w) s)) w)) /\
    (attach_client self reader writer resume_offset;;
     _read_client_loop self buf ([] :: later);;
     _read_mud_turn self (ReadBytes data)) w =
    (Ok Continue,
     log ([ClientWrite writer tokf] ++ (ClientWrite writer <$> fs)
          ++ [CreateTask (ReadClient self reader)])
       (put self (appended data (set_client_writer None (attached writer (clock w) s)))
          w)).
Proof.
  intros Hs Hr Hm Htok Hchunks Hd Hoff.
  assert (Hfit : Forall (fun chunk => len chunk <= 65535) (buffer s)).
  { eapply Forall_impl; [exact Hchunks|]. unfold read_chunk. intros c Hc. lia. }
  destruct (attach_client_run self w s reader writer r m tokf resume_offset
              Hs Hr Hm Htok Hfit Hoff) as (fs & Hrun).
  destruct (pack_data_frame data) as [f Hf]; [unfold read_chunk in Hd; lia|].
  assert (Hne : data <> []).
  { intros ->. unfold read_chunk, len in Hd. simpl in Hd. lia. }
  exists fs, f. split; [done|]. split.
  - unfold mbind, M_bind. rewrite Hrun.
    erewrite (read_mud_turn_data_run self _ (attached writer (clock w) s) r data f);
      [|by eapply heap_put|done|done|done].
    cbn [attached client_writer set_last_active set_client_writer].
    unfold put, log. simpl.
    rewrite list_insert_insert_eq. do 2 f_equal.
    rewrite <- app_assoc. simpl. by rewrite <- app_assoc.
  - unfold mbind, M_bind. rewrite Hrun. cbn [_read_client_loop]. unfold setattr.
    rewrite log_put.
    rewrite (store_over_put self _ (attached writer (clock w) s) s) by done.
    erewrite (read_mud_turn_data_run self _
                (set_client_writer None (attached writer (clock w) s)) r data f);
      [|by eapply heap_put|done|done|done].
    cbn [attached client_writer set_last_active set_client_writer].
    rewrite log_nil. unfold put, log. simpl.
    by rewrite list_insert_insert_eq.
Qed.

(** X18.  A handshake for a new session with a successful dial stores
    the new session object under the minted token (replacing an entry
    that had the same key), leaves every existing object as it was,
    starts the upstream task, sends the client exactly one frame, the
    Control frame with the session token, and starts the client loop.
    The new session has an empty buffer, zero counters, both upstream
    endpoints and the client writer. *)
Theorem new_session_opened (reader writer : client_conn) (data : bytes)
    (session_id : string) (w : World) (payload : bytes) (rest : list frame)
    (msg : pyval) (r m : mud_conn) (tokf : bytes) :
  fst (unpack_frames data) = (TYPE_CTRL, payload) :: rest ->
  json_loads payload = Some msg ->
  py_in "resume" msg = Ok false ->
  pack_frame TYPE_CTRL (json_dumps (PDict [("session", PStr session_id)]))
    = Ok tokf ->
  let self := length (heap w) in
  handle_client reader writer data session_id (DialOk r m) w =
  (Ok tt,
   mkWorld (<[session_id := self]> (sessions w))
     (heap w ++ [mkSession session_id [] (PInt 0) 0 (Some writer) (Some r) (Some m)
                   (clock w) (Some (ReadMud self))])
     (trace w ++ [CreateTask (ReadMud self); ClientWrite writer tokf;
                  CreateTask (ReadClient self reader)])
     (clock w)).
Proof.
  intros Hfr Hl Hin Htok self.
  set (s0 := mkSession session_id [] (PInt 0) 0 None None None (clock w) None).
  set (w1 := mkWorld (<[session_id := self]> (sessions w)) (heap w ++ [s0])
               (trace w) (clock w)).
  assert (Hs0 : heap w1 !! self = Some s0).
  { simpl. by rewrite lookup_app_r, Nat.sub_diag. }
  unfold handle_client. rewrite Hfr. cbn [negb]. rewrite Z.eqb_refl. cbn [negb].
  rewrite Hl, Hin. unfold mbind at 1, M_bind, lift.
  unfold mbind at 1, M_bind, Session_init. fold self. fold s0.
  unfold mbind at 1 2, M_bind, sessions_set. cbn [sessions heap trace clock].
  fold w1. unfold connect_to_mud, attach_client. mstep.
  rewrite (store_put _ _ w1 s0) by done.
  rewrite (store_over_put _ _ _ s0) by done. rewrite log_put.
  rewrite !(store_over_put _ _ _ s0) by done.
  erewrite deref_run by (by eapply heap_put). simpl.
  erewrite send_to_client_run by (by eapply heap_put). simpl. rewrite Htok.
  unfold put, log, w1. simpl. do 2 f_equal.
  - replace self with (length (heap w) + 0)%nat by (unfold self; lia).
    by rewrite insert_app_r.
  - by rewrite <- !app_assoc.
Qed.

(** X19.  When the dial of a new session ends with an exception other
    than a refusal, the exception leaves the handler: the session object
    was already created and stored in the registry and stays there,
    without upstream endpoints and without a client; no task is started,
    no frame is sent and the client connection is not closed. *)
Theorem dial_error_leaves_entry (reader writer : client_conn) (data : bytes)
    (session_id : string) (w : World) (payload : bytes) (rest : list frame)
    (msg : pyval) :
  fst (unpack_frames data) = (TYPE_CTRL, payload) :: rest ->
  json_loads payload = Some msg ->
  py_in "resume" msg = Ok false ->
  handle_client reader writer data session_id DialError w =
  (Raise OSError,
   mkWorld (<[session_id := length (heap w)]> (sessions w))
     (heap w ++ [mkSession session_id [] (PInt 0) 0 None None None (clock w) None])
     (trace w) (clock w)).
Proof.
  intros Hfr Hl Hin. unfold handle_client. rewrite Hfr. cbn [negb].
  rewrite Z.eqb_refl. cbn [negb]. rewrite Hl, Hin. done.
Qed.

End HandshakeProperties.

(** The first frame of the connection is a Data frame. *)
Lemma handshake_without_control_frame_witness :
  handle_client (codec := demo_codec) 3 3 (frame_of TYPE_DATA (text "look"))
    other_token (DialOk 8 8) world_fed =
  (Ok tt,
   log [ClientWrite 3 (frame_of TYPE_CTRL (error_literal "Missing control frame"));
        ClientClose 3] world_fed) /\
  unpack_frames (frame_of TYPE_CTRL (error_literal "Missing control frame"))
  = ([(TYPE_CTRL, error_literal "Missing control frame")], []).
Proof.
  apply (handshake_without_control_frame (codec := demo_codec) 3 3
           (frame_of TYPE_DATA (text "look")) other_token (DialOk 8 8) world_fed).
  right. exists (TYPE_DATA, text "look"), []. split; by_computation.
Defined.

(** A resume request for a token that the registry does not hold. *)
Lemma resume_unknown_token_witness :
  handle_client (codec := more_codec) 3 3
    (frame_of TYPE_CTRL (resume_only_text other_token)) other_token (DialOk 8 8)
    world_fed =
  (Ok tt,
   log [ClientWrite 3 (frame_of TYPE_CTRL (error_literal "Invalid session"));
        ClientClose 3] world_fed).
Proof.
  apply (resume_unknown_token (codec := more_codec) 3 3
           (frame_of TYPE_CTRL (resume_only_text other_token)) other_token
           (DialOk 8 8) world_fed (resume_only_text other_token) []
           [("resume", PStr other_token)] (PStr other_token)); by_computation.
Defined.

(** The first frame is a Control frame whose payload is the two bytes
    [ff fe], which are not UTF-8. *)
Lemma handshake_bad_json_raises_witness :
  handle_client (codec := more_codec) 3 3 (frame_of TYPE_CTRL [xff; xfe])
    other_token (DialOk 8 8) world_fed =
  (Raise (match json_loads (JsonCodec := more_codec) [xff; xfe] with
          | None => if utf8_valid [xff; xfe]
                    then json_loads_error (JsonCodec := more_codec) [xff; xfe]
                    else UnicodeDecodeError
          | Some _ => TypeError
          end), world_fed).
Proof.
  apply (handshake_bad_json_raises (codec := more_codec) 3 3
           (frame_of TYPE_CTRL [xff; xfe]) other_token (DialOk 8 8) world_fed
           [xff; xfe] []); by_computation.
Defined.

(** The same with the payload [{oops], which is UTF-8 and not JSON, and
    with the number [7]. *)
Example handshake_bad_json_examples :
  fst (handle_client (codec := more_codec) 3 3 (frame_of TYPE_CTRL [xff; xfe])
         other_token (DialOk 8 8) world_fed) = Raise UnicodeDecodeError /\
  fst (handle_client (codec := more_codec) 3 3 (frame_of TYPE_CTRL (text "{oops"))
         other_token (DialOk 8 8) world_fed) = Raise JSONDecodeError /\
  fst (handle_client (codec := more_codec) 3 3 (frame_of TYPE_CTRL (text "7"))
         other_token (DialOk 8 8) world_fed) = Raise TypeError.
Proof. repeat split; by_computation. Qed.

(** A second client opens a second session beside the example one. *)
Lemma new_session_opened_witness :
  handle_client (codec := demo_codec) 3 3 (frame_of TYPE_CTRL new_text) other_token
    (DialOk 8 8) world_fed =
  (Ok tt,
   mkWorld (<[other_token := length (heap world_fed)]> (sessions world_fed))
     (heap world_fed ++
      [mkSession other_token [] (PInt 0) 0 (Some 3%nat) (Some 8%nat) (Some 8%nat)
         (clock world_fed) (Some (ReadMud (length (heap world_fed))))])
     (trace world_fed ++
      [CreateTask (ReadMud (length (heap world_fed)));
       ClientWrite 3
         (frame_of TYPE_CTRL (demo_dumps (PDict [("session", PStr other_token)])));
       CreateTask (ReadClient (length (heap world_fed)) 3)])
     (clock world_fed)).
Proof.
  apply (new_session_opened (codec := demo_codec) 3 3 (frame_of TYPE_CTRL new_text)
           other_token world_fed new_text [] (PDict [("new", PBool true)]) 8 8);
    by_computation.
Defined.

(** The dial of a new session ends with another exception. *)
Lemma dial_error_leaves_entry_witness :
  handle_client (codec := demo_codec) 3 3 (frame_of TYPE_CTRL new_text) other_token
    DialError world_fed =
  (Raise OSError,
   mkWorld (<[other_token := length (heap world_fed)]> (sessions world_fed))
     (heap world_fed ++
      [mkSession other_token [] (PInt 0) 0 None None None (clock world_fed) None])
     (trace world_fed) (clock world_fed)).
Proof.
  apply (dial_error_leaves_entry (codec := demo_codec) 3 3
           (frame_of TYPE_CTRL new_text) other_token world_fed new_text []
           (PDict [("new", PBool true)])); by_computation.
Defined.

(** The detached example session (window [10,30)) is resumed without an
    offset. *)
Lemma resume_without_ack_replays_buffer_witness :
  exists s, heap world_acked !! 0%nat = Some s /\
  exists fs,
    attach_client (codec := demo_codec) 0 2 2 PNone world_acked =
    (Ok tt,
     log ([ClientWrite 2 demo_token_frame] ++ (ClientWrite 2 <$> fs)
          ++ [CreateTask (ReadClient 0 2)])
       (put 0 (attached 2 (clock world_acked) s) world_acked)) /\
    Forall2 (fun p f => pack_frame TYPE_DATA p = Ok f) (buffer s) fs.
Proof.
  eexists. split; [reflexivity|].
  apply (resume_without_ack_replays_buffer (codec := demo_codec) 0 world_acked _
           2 2 7 7 demo_token_frame); try reflexivity.
  repeat constructor; by_computation.
Defined.

(** Client 2 attaches to the example session while client 1 is attached;
    then ten more bytes arrive, before or after the loop of client 1
    has met end-of-stream. *)
Lemma attach_replaces_client_witness :
  exists s, heap world_fed !! 0%nat = Some s /\
  client_writer s = Some 1%nat /\
  exists fs f,
    pack_frame TYPE_DATA (octets 30 10) = Ok f /\
    (attach_client (codec := demo_codec) 0 2 2 (PInt 30);;
     _read_mud_turn (codec := demo_codec) 0 (ReadBytes (octets 30 10))) world_fed =
    (Ok Continue,
     log ([ClientWrite 2 demo_token_frame] ++ (ClientWrite 2 <$> fs)
          ++ [CreateTask (ReadClient 0 2)] ++ [ClientWrite 2 f])
       (put 0 (appended (octets 30 10) (attached 2 (clock world_fed) s)) world_fed)) /\
    (attach_client (codec := demo_codec) 0 2 2 (PInt 30);;
     _read_client_loop (codec := demo_codec) 0 [] [[]];;
     _read_mud_turn (codec := demo_codec) 0 (ReadBytes (octets 30 10))) world_fed =
    (Ok Continue,
     log ([ClientWrite 2 demo_token_frame] ++ (ClientWrite 2 <$> fs)
          ++ [CreateTask (ReadClient 0 2)])
       (put 0 (appended (octets 30 10)
                 (set_client_writer None (attached 2 (clock world_fed) s)))
          world_fed)).
Proof.
  eexists. split; [reflexivity|]. split; [reflexivity|].
  apply (attach_replaces_client (codec := demo_codec) 0 world_fed _ 2 2 7 7
           demo_token_frame (octets 30 10) (PInt 30) [] []); try reflexivity.
  - repeat constructor; by_computation.
  - split; by_computation.
  - right. by exists 30.
Defined.

(** ** Sessions do not interfere *)

Create HintDb confined.

Lemma confined_ret {A : Type} (self : addr) (a : A) : confined self (mret a).
Proof. by intros w. Qed.

Lemma confined_bind {A B : Type} (self : addr) (m : M A) (k : A -> M B) :
  confined self m -> (forall a, confined self (k a)) -> confined self (m ≫= k).
Proof.
  intros Hm Hk w. unfold mbind, M_bind. destruct (Hm w) as (H1 & H2 & H3 & H4).
  destruct (m w) as [[a|e] w1]; simpl in *; [|done].
  destruct (Hk a w1) as (K1 & K2 & K3 & K4).
  rewrite K1, K2, K3. repeat split; try done.
  intros b Hb. by rewrite K4, H4.
Qed.

Lemma confined_try_except {A : Type} (self : addr) (m h : M A) :
  confined self m -> confined self h -> confined self (try_except m h).
Proof.
  intros Hm Hh w. unfold try_except. destruct (Hm w) as (H1 & H2 & H3 & H4).
  destruct (m w) as [[a|e] w1]; simpl in *; [done|].
  destruct (Hh w1) as (K1 & K2 & K3 & K4).
  rewrite K1, K2, K3. repeat split; try done.
  intros b Hb. by rewrite K4, H4.
Qed.

Lemma confined_lift {A : Type} (self : addr) (r : result A) : confined self (lift r).
Proof. by intros w. Qed.

Lemma confined_raise {A : Type} (self : addr) (e : exn) :
  confined self (raise (A := A) e).
Proof. by intros w. Qed.

Lemma confined_deref (self a : addr) : confined self (deref a).
Proof. intros w. unfold deref. by destruct (heap w !! a). Qed.

Lemma confined_setattr (self : addr) (f : Session -> Session) :
  confined self (setattr self f).
Proof.
  intros w. simpl. repeat split; [apply length_alter|].
  intros a Ha. by apply list_lookup_alter_ne.
Qed.

Lemma confined_emit (self : addr) (e : event) : confined self (emit e).
Proof. by intros w. Qed.

Lemma confined_time_time (self : addr) : confined self time_time.
Proof. by intros w. Qed.

#[local] Hint Resolve confined_ret confined_lift confined_raise confined_deref
  confined_setattr confined_emit confined_time_time confined_try_except : confined.

(** Goes through a run built from binds, matches and the primitives. *)
Ltac confined_run :=
  repeat first
    [ progress intros
    | progress cbv zeta
    | solve [eauto with confined]
    | apply confined_bind
    | match goal with
      | |- confined _ (match ?x with _ => _ end) => destruct x
      end ].

Section Isolation.
Context {codec : JsonCodec}.

Lemma confined_send_to_client (self : addr) (frame_type : Z) (data : bytes) :
  confined self (_send_to_client self frame_type data).
Proof. unfold _send_to_client. confined_run. Qed.

Lemma confined_append_buffer (self : addr) (data : bytes) :
  confined self (_append_buffer self data).
Proof. unfold _append_buffer. confined_run. Qed.

Lemma confined_trim_buffer (self : addr) : confined self (_trim_buffer self).
Proof. unfold _trim_buffer. confined_run. Qed.

Lemma confined_handle_control (self : addr) (payload : bytes) :
  confined self (_handle_control self payload).
Proof.
  pose proof confined_trim_buffer. unfold _handle_control. confined_run.
Qed.

Lemma confined_handle_mud_disconnect (self : addr) (error : string) :
  confined self (_handle_mud_disconnect self error).
Proof.
  pose proof confined_send_to_client. unfold _handle_mud_disconnect. confined_run.
Qed.

Lemma confined_replay_from (self : addr) (skip : Z) (chunks : list bytes) :
  confined self (replay_from self skip chunks).
Proof.
  pose proof confined_send_to_client.
  revert skip. induction chunks as [|c rest IH]; intros skip; simpl; confined_run.
Qed.

Lemma confined_replay_all (self : addr) (chunks : list bytes) :
  confined self (replay_all self chunks).
Proof.
  pose proof confined_send_to_client.
  induction chunks as [|c rest IH]; simpl; confined_run.
Qed.

Lemma confined_attach_client (self : addr) (reader writer : client_conn)
    (resume_offset : pyval) :
  confined self (attach_client self reader writer resume_offset).
Proof.
  pose proof confined_send_to_client. pose proof confined_handle_mud_disconnect.
  pose proof confined_replay_from. pose proof confined_replay_all.
  unfold attach_client. confined_run.
Qed.

Lemma confined_connect_to_mud (self : addr) (dial : dial_outcome) :
  confined self (connect_to_mud self dial).
Proof. unfold connect_to_mud. confined_run. Qed.

Lemma confined_read_mud_turn (self : addr) (r : read_outcome) :
  confined self (_read_mud_turn self r).
Proof.
  pose proof confined_send_to_client. pose proof confined_handle_mud_disconnect.
  pose proof confined_append_buffer. unfold _read_mud_turn. confined_run.
Qed.

Lemma confined_read_mud (self : addr) (reads : list read_outcome) :
  confined self (_read_mud self reads).
Proof.
  pose proof confined_read_mud_turn.
  induction reads as [|r reads IH]; simpl; confined_run.
Qed.

Lemma confined_for_frames (self : addr) (frames : list frame) :
  confined self (for_frames self frames).
Proof.
  pose proof confined_handle_control.
  induction frames as [|f frames IH]; simpl; [confined_run|].
  apply confined_bind; [|done]. unfold on_client_frame. confined_run.
Qed.

Lemma confined_read_client_loop (self : addr) (buf : bytes) (reads : list bytes) :
  confined self (_read_client_loop self buf reads).
Proof.
  pose proof confined_for_frames. revert buf.
  induction reads as [|data reads IH]; intros buf; simpl; [confined_run|].
  destruct data; confined_run.
Qed.

(** X21.  The coroutines of a session work on that session only: the
    attach, the dial, the upstream loop and the client loop of the
    session at [self], run on any inputs and however they end, leave the
    registry, the clock and every other session object exactly as they
    were, and create no object. *)
Theorem session_runs_are_confined (self : addr) :
  (forall reader writer resume_offset,
     confined self (attach_client self reader writer resume_offset)) /\
  (forall dial, confined self (connect_to_mud self dial)) /\
  (forall reads, confined self (_read_mud self reads)) /\
  (forall reads, confined self (_read_client self reads)).
Proof.
  split; [|split; [|split]]; intros.
  - apply confined_attach_client.
  - apply confined_connect_to_mud.
  - apply confined_read_mud.
  - apply confined_read_client_loop.
Qed.

End Isolation.

Section ResumeRegistry.
Context {codec : JsonCodec}.

Lemma reject_keeps_registry (writer : client_conn) (reason : string) (w : World) :
  sessions (snd (reject writer reason w)) = sessions w /\
  heap (snd (reject writer reason w)) = heap w.
Proof.
  unfold reject, mbind, M_bind, lift, emit.
  by destruct (pack_frame TYPE_CTRL (error_literal reason)).
Qed.

(** X23.  A handshake whose JSON value has a [resume] member never
    changes the registry and never creates a session object, whatever
    the token and the offset are and however the handler ends: a resume
    can only attach to a session that is registered already. *)
Theorem resume_handshake_keeps_registry (reader writer : client_conn)
    (data : bytes) (session_id : string) (dial : dial_outcome) (w : World)
    (payload : bytes) (rest : list frame) (msg : pyval) :
  fst (unpack_frames data) = (TYPE_CTRL, payload) :: rest ->
  json_loads payload = Some msg ->
  py_in "resume" msg = Ok true ->
  sessions (exec (handle_client reader writer data session_id dial) w) = sessions w /\
  length (heap (exec (handle_client reader writer data session_id dial) w))
  = length (heap w).
Proof.
  intros Hfr Hl Hin. unfold exec, handle_client. rewrite Hfr. cbn [negb].
  rewrite Z.eqb_refl. cbn [negb]. rewrite Hl, Hin.
  unfold mbind, M_bind, lift.
  destruct (py_getitem msg "resume") as [token|e]; [|done].
  assert (Hrej : forall reason,
            sessions (snd (reject writer reason w)) = sessions w /\
            length (heap (snd (reject writer reason w))) = length (heap w)).
  { intros reason. destruct (reject_keeps_registry writer reason w) as [-> ->].
    done. }
  destruct token as [| | |t| |]; simpl; try done; try apply Hrej.
  destruct (sessions w !! t) as [a|]; [|apply Hrej].
  destruct (py_get msg "ack") as [ack|e]; [|done].
  destruct (confined_attach_client a reader writer ack w) as (H1 & _ & H3 & _).
  done.
Qed.

End ResumeRegistry.

(** A resume request for the example token on the detached example
    session. *)
Lemma resume_handshake_keeps_registry_witness :
  sessions (exec (handle_client (codec := demo_codec) 2 2
                    (frame_of TYPE_CTRL (resume_text demo_token "15")) other_token
                    (DialOk 8 8)) world_acked) = sessions world_acked /\
  length (heap (exec (handle_client (codec := demo_codec) 2 2
                        (frame_of TYPE_CTRL (resume_text demo_token "15"))
                        other_token (DialOk 8 8)) world_acked))
  = length (heap world_acked).
Proof.
  apply (resume_handshake_keeps_registry (codec := demo_codec) 2 2
           (frame_of TYPE_CTRL (resume_text demo_token "15")) other_token
           (DialOk 8 8) world_acked (resume_text demo_token "15") []
           (PDict [("resume", PStr demo_token); ("ack", PInt 15)])); by_computation.
Defined.

(** ** Float subtraction *)

Lemma pow2_inject (z : Z) : 0 <= z -> ((2 : Q) ^ z == inject_Z (2 ^ z))%Q.
Proof. intros Hz. symmetry. apply (Zpower_Qpower 2 z Hz). Qed.

Lemma pow2_pos (z : Z) : (0 < (2 : Q) ^ z)%Q.
Proof. apply Qpower_0_lt. reflexivity. Qed.

Lemma pow2_le (a b : Z) : a <= b -> ((2 : Q) ^ a <= 2 ^ b)%Q.
Proof. intros H. apply Qpower_le_compat_l; [exact H|discriminate]. Qed.

(** [n / d] lies between the powers of two given by the bit lengths. *)
Lemma Qlog2_bounds (q : Q) :
  (0 < q)%Q ->
  let k := Z.log2 (Qnum q) - Z.log2 (Z.pos (Qden q)) in
  (2 ^ (k - 1) < q /\ q < 2 ^ (k + 1))%Q.
Proof.
  destruct q as [n d]. intros Hn. cbn [Qnum Qden].
  assert (Hn' : 0 < n) by (unfold Qlt in Hn; simpl in Hn; lia). clear Hn.
  destruct (Z.log2_spec n Hn') as [Ha1 Ha2].
  destruct (Z.log2_spec (Z.pos d) (Pos2Z.is_pos d)) as [Hb1 Hb2].
  pose proof (Z.log2_nonneg n) as Ha0. pose proof (Z.log2_nonneg (Z.pos d)) as Hb0.
  set (a := Z.log2 n) in *. set (b := Z.log2 (Z.pos d)) in *.
  assert (HA : 0 < 2 ^ a) by (apply Z.pow_pos_nonneg; lia).
  assert (HB : 0 < 2 ^ b) by (apply Z.pow_pos_nonneg; lia).
  assert (Hq : (n # d == inject_Z n / inject_Z (Z.pos d))%Q) by apply Qmake_Qdiv.
  assert (Hd : (0 < inject_Z (Z.pos d))%Q) by reflexivity.
  assert (EA : ((2 : Q) ^ a == inject_Z (2 ^ a))%Q) by (apply pow2_inject; lia).
  assert (EA1 : ((2 : Q) ^ (a + 1) == inject_Z (2 ^ (a + 1)))%Q)
    by (apply pow2_inject; lia).
  assert (EB : ((2 : Q) ^ b == inject_Z (2 ^ b))%Q) by (apply pow2_inject; lia).
  assert (EB1 : ((2 : Q) ^ (b + 1) == inject_Z (2 ^ (b + 1)))%Q)
    by (apply pow2_inject; lia).
  assert (PB : (0 < inject_Z (2 ^ b))%Q) by (rewrite <- EB; apply pow2_pos).
  assert (PB1 : (0 < inject_Z (2 ^ (b + 1)))%Q) by (rewrite <- EB1; apply pow2_pos).
  rewrite Z.pow_succ_r in Ha2, Hb2 by lia.
  assert (S1 : forall z, 0 <= z -> 2 ^ (z + 1) = 2 * 2 ^ z)
    by (intros; rewrite Z.pow_add_r by lia; lia).
  split.
  - replace (a - b - 1) with (a - (b + 1)) by lia.
    rewrite Qpower_minus by discriminate. rewrite EA, EB1, Hq.
    apply Qlt_shift_div_l; [exact Hd|].
    unfold Qdiv. rewrite <- Qmult_assoc, (Qmult_comm (/ _)), Qmult_assoc.
    apply Qlt_shift_div_r; [exact PB1|].
    rewrite <- !inject_Z_mult, <- Zlt_Qlt. rewrite ?S1 by lia. nia.
  - replace (a - b + 1) with (a + 1 - b) by lia.
    rewrite Qpower_minus by discriminate. rewrite EA1, EB, Hq.
    apply Qlt_shift_div_r; [exact Hd|].
    unfold Qdiv. rewrite <- Qmult_assoc, (Qmult_comm (/ _)), Qmult_assoc.
    apply Qlt_shift_div_l; [exact PB|].
    rewrite <- !inject_Z_mult, <- Zlt_Qlt. rewrite ?S1 by lia. nia.
Qed.

Lemma Qlog2_spec (q : Q) :
  (0 < q)%Q -> (2 ^ Qlog2 q <= q /\ q < 2 ^ (Qlog2 q + 1))%Q.
Proof.
  intros Hq. destruct (Qlog2_bounds q Hq) as [Hlo Hhi]. unfold Qlog2.
  set (k := Z.log2 (Qnum q) - Z.log2 (Z.pos (Qden q))) in *.
  destruct (Qle_bool (2 ^ k) q) eqn:E.
  - apply Qle_bool_iff in E. split; assumption.
  - split; [apply Qlt_le_weak; exact Hlo|].
    replace (k - 1 + 1) with k by lia. apply Qnot_le_lt. intros H.
    apply Qle_bool_iff in H. congruence.
Qed.

Lemma Z_lt_Q (a b : Z) : a < b <-> (inject_Z a < inject_Z b)%Q.
Proof. rewrite Zlt_Qlt. reflexivity. Qed.

Lemma Z_le_Q (a b : Z) : a <= b <-> (inject_Z a <= inject_Z b)%Q.
Proof. rewrite Zle_Qle. reflexivity. Qed.

Lemma inject_Z_le (a b : Z) : a <= b -> (inject_Z a <= inject_Z b)%Q.
Proof. apply Z_le_Q. Qed.

Lemma inject_Z_le_inv (a b : Z) : (inject_Z a <= inject_Z b)%Q -> a <= b.
Proof. apply Z_le_Q. Qed.

Lemma inject_Z_lt_inv (a b : Z) : (inject_Z a < inject_Z b)%Q -> a < b.
Proof. apply Z_lt_Q. Qed.

Lemma round_half_even_cases (y : Q) :
  let f := Qfloor y in
  ((y < inject_Z f + (1 # 2))%Q /\ round_half_even y = f) \/
  ((inject_Z f + (1 # 2) < y)%Q /\ round_half_even y = f + 1) \/
  ((y == inject_Z f + (1 # 2))%Q /\
   round_half_even y = if Z.even f then f else f + 1).
Proof.
  intros f. unfold round_half_even. fold f.
  destruct (Qcompare (y - inject_Z f) (1 # 2)) eqn:E.
  - right; right. apply Qeq_alt in E. split; [lra|reflexivity].
  - left. apply Qlt_alt in E. split; [lra|reflexivity].
  - right; left. apply Qgt_alt in E. split; [lra|reflexivity].
Qed.

Lemma floor_bounds (y : Q) :
  (inject_Z (Qfloor y) <= y /\ y < inject_Z (Qfloor y) + 1)%Q.
Proof.
  split; [apply Qfloor_le|]. pose proof (Qlt_floor y) as H.
  rewrite inject_Z_plus in H. exact H.
Qed.

(** Rounding to the nearest integer passes an even integer [M] exactly
    when its argument passes the midpoint above [M]. *)
Lemma round_half_even_gt (y : Q) (M : Z) :
  Z.even M = true ->
  M < round_half_even y <-> (inject_Z M + (1 # 2) < y)%Q.
Proof.
  intros HM. destruct (floor_bounds y) as [Hf1 Hf2].
  set (f := Qfloor y) in *.
  destruct (Z_lt_le_dec M f) as [Hlt|Hge].
  - (* M + 1 <= f *)
    assert (H1 : (inject_Z (M + 1) <= inject_Z f)%Q) by (apply inject_Z_le; lia).
    rewrite inject_Z_plus in H1. change (inject_Z 1) with 1%Q in H1.
    split; [intros _; lra|intros _].
    destruct (round_half_even_cases y) as [[_ ->]|[[_ ->]|[_ ->]]]; fold f;
      try destruct (Z.even f); lia.
  - destruct (Z_lt_le_dec f M) as [Hlt|Hge'].
    + (* f + 1 <= M *)
      assert (H1 : (inject_Z (f + 1) <= inject_Z M)%Q) by (apply inject_Z_le; lia).
      rewrite inject_Z_plus in H1. change (inject_Z 1) with 1%Q in H1.
      split; [|intros; lra].
      destruct (round_half_even_cases y) as [[_ ->]|[[_ ->]|[_ ->]]]; fold f;
        try destruct (Z.even f); lia.
    + assert (f = M) by lia. subst M.
      destruct (round_half_even_cases y) as [[H ->]|[[H ->]|[H ->]]]; fold f in H |- *.
      * split; [lia|lra].
      * split; [intros _; exact H|lia].
      * rewrite HM. split; [lia|lra].
Qed.

Lemma round_half_even_ge (y : Q) (lo : Z) :
  (inject_Z lo <= y)%Q -> lo <= round_half_even y.
Proof.
  intros H. destruct (floor_bounds y) as [Hf1 Hf2].
  assert (lo <= Qfloor y).
  { apply Z.lt_succ_r. apply inject_Z_lt_inv. unfold Z.succ. rewrite inject_Z_plus.
    change (inject_Z 1) with 1%Q. lra. }
  destruct (round_half_even_cases y) as [[_ ->]|[[_ ->]|[_ ->]]];
    try destruct (Z.even _); lia.
Qed.

Lemma round_half_even_le (y : Q) (hi : Z) :
  (y <= inject_Z hi)%Q -> round_half_even y <= hi.
Proof.
  intros H. destruct (floor_bounds y) as [Hf1 Hf2].
  assert (Hfl : Qfloor y <= hi) by (apply inject_Z_le_inv; lra).
  destruct (round_half_even_cases y) as [[_ ->]|[[Hy ->]|[Hy ->]]]; [lia| |].
  - assert (Qfloor y < hi); [|lia]. apply inject_Z_lt_inv. lra.
  - assert (Qfloor y < hi); [|destruct (Z.even _); lia]. apply inject_Z_lt_inv. lra.
Qed.

Lemma round_binary64_pos (x : Q) :
  (0 < x)%Q ->
  round_binary64 x =
  (inject_Z (round_half_even (x / 2 ^ (Qlog2 x - 52))) * 2 ^ (Qlog2 x - 52))%Q.
Proof.
  intros Hx. unfold round_binary64.
  replace (Qcompare x 0) with Gt; [reflexivity|]. symmetry. apply Qgt_alt. exact Hx.
Qed.

(** A positive number and its rounding lie in the same binade. *)
Lemma round_binary64_binade (x : Q) :
  (0 < x)%Q ->
  (2 ^ Qlog2 x <= round_binary64 x /\ round_binary64 x <= 2 ^ (Qlog2 x + 1))%Q.
Proof.
  intros Hx. rewrite (round_binary64_pos x Hx).
  destruct (Qlog2_spec x Hx) as [Hlo Hhi]. set (k := Qlog2 x) in *.
  pose proof (pow2_pos (k - 52)) as He.
  assert (Hk : ((2 : Q) ^ k == 2 ^ 52 * 2 ^ (k - 52))%Q).
  { rewrite <- Qpower_plus by discriminate. f_equiv. lia. }
  assert (Hk1 : ((2 : Q) ^ (k + 1) == 2 ^ 53 * 2 ^ (k - 52))%Q).
  { rewrite <- Qpower_plus by discriminate. f_equiv. lia. }
  set (y := (x / 2 ^ (k - 52))%Q).
  assert (Hy1 : (inject_Z (2 ^ 52) <= y)%Q).
  { unfold y. apply Qle_shift_div_l; [exact He|].
    rewrite <- (pow2_inject 52) by lia. rewrite <- Hk. exact Hlo. }
  assert (Hy2 : (y <= inject_Z (2 ^ 53))%Q).
  { unfold y. apply Qle_shift_div_r; [exact He|].
    rewrite <- (pow2_inject 53) by lia. rewrite <- Hk1. apply Qlt_le_weak, Hhi. }
  apply round_half_even_ge in Hy1. apply round_half_even_le in Hy2.
  apply inject_Z_le in Hy1, Hy2. rewrite <- !pow2_inject in Hy1, Hy2 by lia.
  rewrite Hk, Hk1. split; apply Qmult_le_compat_r; auto using Qlt_le_weak.
Qed.

Lemma round_binary64_nonpos (x : Q) : (x <= 0)%Q -> (round_binary64 x <= 0)%Q.
Proof.
  intros Hx. unfold round_binary64. destruct (Qcompare x 0) eqn:E.
  - apply Qle_refl.
  - apply Qlt_alt in E.
    assert (Hn : (0 < - x)%Q) by lra.
    pose proof (round_binary64_binade (- x) Hn) as [H _].
    rewrite (round_binary64_pos _ Hn) in H.
    pose proof (pow2_pos (Qlog2 (- x))). cbv zeta. lra.
  - apply Qgt_alt in E. lra.
Qed.

(** The float difference exceeds 600 exactly when the exact difference
    exceeds the midpoint between 600 and the next binary64 number. *)
Lemma round_binary64_gt_600 (x : Q) :
  (600 < round_binary64 x)%Q <-> (600 + (1 # 17592186044416) < x)%Q.
Proof.
  destruct (Qlt_le_dec 0 x) as [Hx|Hx].
  2:{ pose proof (round_binary64_nonpos x Hx). split; intros; lra. }
  destruct (Qlog2_spec x Hx) as [Hlo Hhi].
  destruct (round_binary64_binade x Hx) as [Rlo Rhi].
  set (k := Qlog2 x) in *.
  destruct (Z_lt_le_dec k 9) as [Hk|Hk].
  - assert (H9 : ((2 : Q) ^ (k + 1) <= 2 ^ 9)%Q) by (apply pow2_le; lia).
    assert (E9 : ((2 : Q) ^ 9 == 512)%Q) by reflexivity.
    split; intros; lra.
  - destruct (Z_lt_le_dec 9 k) as [Hk'|Hk'].
    + assert (H10 : ((2 : Q) ^ 10 <= 2 ^ k)%Q) by (apply pow2_le; lia).
      assert (E10 : ((2 : Q) ^ 10 == 1024)%Q) by reflexivity.
      split; intros; lra.
    + assert (E9 : k = 9) by lia. clear Hk Hk'.
      rewrite (round_binary64_pos x Hx). fold k. rewrite E9.
      change (9 - 52) with (-43).
      assert (Ee : ((2 : Q) ^ (-43) == 1 # 8796093022208)%Q) by reflexivity.
      set (y := (x / 2 ^ (-43))%Q).
      assert (Hy : (y == x * 8796093022208)%Q) by (unfold y; rewrite Ee; reflexivity || lra).
      rewrite Ee.
      pose proof (round_half_even_gt y 5277655813324800 eq_refl) as Hr.
      set (m := round_half_even y) in *.
      rewrite Z_lt_Q in Hr.
      split; intros H.
      * assert (Hm : (inject_Z 5277655813324800 < inject_Z m)%Q).
        { change (inject_Z 5277655813324800) with (5277655813324800 # 1). lra. }
        apply Hr in Hm. change (inject_Z 5277655813324800) with (5277655813324800 # 1) in Hm.
        lra.
      * assert (Hm : (inject_Z 5277655813324800 + (1 # 2) < y)%Q).
        { change (inject_Z 5277655813324800) with (5277655813324800 # 1). lra. }
        apply Hr in Hm. change (inject_Z 5277655813324800) with (5277655813324800 # 1) in Hm.
        lra.
Qed.

(** [now - last > SESSION_TIMEOUT] on floats holds exactly when the exact
    difference of the two readings exceeds [600 + 2^-44]. *)
Lemma float_elapsed_gt_timeout (now last : Q) :
  float_gt_int (float_sub now last) SESSION_TIMEOUT = true <->
  (600 + (1 # 17592186044416) < now - last)%Q.
Proof.
  unfold float_gt_int, float_sub, SESSION_TIMEOUT. rewrite <- round_binary64_gt_600.
  rewrite Bool.negb_true_iff. change (inject_Z 600) with 600%Q.
  set (r := round_binary64 (now - last)). split.
  - intros H. apply Qnot_le_lt. intros Hle. apply Qle_bool_iff in Hle.
    congruence.
  - intros H. destruct (Qle_bool r 600) eqn:E; [|reflexivity].
    apply Qle_bool_iff in E. lra.
Qed.

(** On the example pairs [float_sub] is the subtraction of the Standard
    Library's specification of binary64 arithmetic. *)
Example float_sub_is_binary64_sub :
  Forall (fun xy => Qeq_bool (float_sub (SF2Q (fst xy)) (SF2Q (snd xy)))
                      (SF2Q (SFsub 53 1024 (fst xy) (snd xy))) = true)
    float_examples.
Proof. repeat constructor. Qed.

(** The float nearest to 600.1 minus the float nearest to 0.1 is the
    float 600, although the exact difference of the two is more than
    600. *)
Example float_sub_rounds_to_timeout :
  Qeq_bool (float_sub float_600_1 float_0_1) 600 = true /\
  float_gt_int (float_sub float_600_1 float_0_1) SESSION_TIMEOUT = false /\
  (600 < float_600_1 - float_0_1)%Q.
Proof. repeat split. Qed.

(** ** The idle reaper *)

Lemma to_remove_run (now : Q) (items : list (string * addr)) (w : World) :
  Forall (fun kv => is_Some (heap w !! snd kv)) items ->
  to_remove now items w =
  (Ok (fst <$> List.filter (fun kv => idle_at now w (snd kv)) items), w).
Proof.
  induction 1 as [|[sid a] items [s Hs] _ IH]; [done|].
  cbn [snd] in Hs. cbn [to_remove]. unfold mbind, M_bind. rewrite (deref_run _ _ _ Hs), IH.
  unfold mret, M_ret. cbn [List.filter snd].
  assert (Hidle : idle_at now w a
                  = float_gt_int (float_sub now (last_active s)) SESSION_TIMEOUT)
    by (unfold idle_at; by rewrite Hs).
  rewrite Hidle.
  by destruct (float_gt_int (float_sub now (last_active s)) SESSION_TIMEOUT).
Qed.

Lemma omap_ext_in {A B : Type} (f g : A -> option B) (l : list A) :
  (forall x, x ∈ l -> f x = g x) -> omap f l = omap g l.
Proof.
  intros Hfg. apply list_omap_ext, Forall_Forall2_diag, Forall_forall. exact Hfg.
Qed.

Lemma reap_run (sids : list string) :
  forall w,
    NoDup sids ->
    Forall (fun sid => exists a, sessions w !! sid = Some a
                                 /\ is_Some (heap w !! a)) sids ->
    exists w',
      reap sids w = (Ok tt, w') /\
      heap w' = heap w /\ clock w' = clock w /\
      (forall sid, sessions w' !! sid =
                   if bool_decide (sid ∈ sids) then None else sessions w !! sid) /\
      trace w' = trace w ++ omap (fun sid => a ← sessions w !! sid; close_of w a) sids.
Proof.
  induction sids as [|sid rest IH]; intros w Hnd Hall.
  - exists w. simpl. rewrite app_nil_r. repeat split; try done.
  - apply NoDup_cons in Hnd as [Hnotin Hnd].
    apply Forall_cons in Hall as [(a & Ha & s & Hs) Hall].
    set (w1 := mkWorld (delete sid (sessions w)) (heap w) (trace w) (clock w)).
    set (es := match mud_writer s with Some m => [MudClose m] | None => [] end).
    assert (Hstep : reap (sid :: rest) w = reap rest (log es w1)).
    { cbn [reap]. unfold mbind at 1, M_bind, sessions_pop. rewrite Ha. fold w1.
      unfold mbind at 1, M_bind. rewrite (deref_run a w1 s) by done.
      unfold mbind, M_bind, es.
      destruct (mud_writer s); [done|]. unfold mret, M_ret. by rewrite log_nil. }
    assert (Hsame : forall x, x ∈ rest ->
              sessions (log es w1) !! x = sessions w !! x).
    { intros x Hx. simpl. apply lookup_delete_ne. by intros ->. }
    destruct (IH (log es w1)) as (w' & Hrun & Hh & Hc & Hlook & Htr); [done| |].
    { eapply Forall_impl; [apply Forall_and; split; [exact Hall|]|].
      - apply Forall_forall. intros x Hx. exact (Hsame x Hx).
      - intros x [(b & Hb & Hlive) Hx]. exists b. by rewrite Hx. }
    exists w'. rewrite Hstep. repeat split; try done.
    + intros x. rewrite Hlook. simpl.
      destruct (decide (x = sid)) as [->|Hne].
      * rewrite lookup_delete_eq. rewrite (bool_decide_eq_true_2 (sid ∈ sid :: rest))
          by apply list_elem_of_here. by destruct (bool_decide (sid ∈ rest)).
      * rewrite lookup_delete_ne by done.
        destruct (decide (x ∈ rest)) as [Hin|Hnin].
        -- rewrite !bool_decide_eq_true_2; [done|by apply list_elem_of_further|done].
        -- rewrite !bool_decide_eq_false_2; [done| |done].
           intros Hin. apply elem_of_cons in Hin as [?|?]; done.
    + assert (Hhd : omap (fun x => a0 ← sessions w !! x; close_of w a0) (sid :: rest)
                    = es ++ omap (fun x => a0 ← sessions w !! x; close_of w a0) rest).
      { change (omap ?f (sid :: rest))
          with (match f sid with Some y => y :: omap f rest | None => omap f rest end).
        cbv beta. rewrite Ha. cbn [mbind option_bind]. unfold close_of at 1.
        rewrite Hs. cbn [mbind option_bind]. unfold es.
        by destruct (mud_writer s). }
      assert (Hom : omap (fun x => a0 ← sessions (log es w1) !! x; close_of (log es w1) a0)
                      rest
                    = omap (fun x => a0 ← sessions w !! x; close_of w a0) rest).
      { apply omap_ext_in. intros x Hx. by rewrite (Hsame x Hx). }
      rewrite Htr, Hom, Hhd. cbn [trace log w1]. by rewrite <- app_assoc.
Qed.

Lemma NoDup_fst_filter (p : string * addr -> bool) (items : list (string * addr)) :
  NoDup (fst <$> items) -> NoDup (fst <$> List.filter p items).
Proof.
  induction items as [|kv items IH]; [done|]. cbn [fmap list_fmap List.filter].
  intros Hnd. apply NoDup_cons in Hnd as [Hnotin Hnd].
  destruct (p kv); [|by apply IH]. cbn [fmap list_fmap]. apply NoDup_cons.
  split; [|by apply IH]. intros Hin. apply Hnotin.
  apply list_elem_of_fmap in Hin as (kv' & -> & Hin').
  apply list_elem_of_fmap. exists kv'. split; [done|].
  apply list_elem_of_In. apply list_elem_of_In in Hin'.
  by apply List.filter_In in Hin' as [? _].
Qed.

(** X24.  One sweep of the reaper, on a registry all of whose entries
    lead to session objects: exactly the entries whose session is idle
    are removed and all others stay, where a session is idle when the
    float [now - last_active] is greater than 600, which is the case
    exactly when the exact difference of the two clock readings is
    greater than [600 + 2^-44] (an exact difference of at most that
    rounds to the float 600).  For each removed session that has an
    upstream writer that writer is closed, in the order of the dict.
    Nothing else happens: no session object is changed (the removed
    session keeps its upstream writer and its client writer), and no
    client connection is written to or closed. *)
Theorem cleanup_removes_idle_sessions (items : list (string * addr)) (w : World) :
  items ≡ₚ map_to_list (sessions w) ->
  (forall sid a, sessions w !! sid = Some a -> is_Some (heap w !! a)) ->
  exists w',
    cleanup_sessions_turn items w = (Ok tt, w') /\
    (forall sid,
       sessions w' !! sid =
       match sessions w !! sid with
       | Some a => if idle_at (clock w) w a then None else Some a
       | None => None
       end) /\
    (forall a s,
       heap w !! a = Some s ->
       idle_at (clock w) w a = true <->
       (600 + (1 # 17592186044416) < clock w - last_active s)%Q) /\
    heap w' = heap w /\
    clock w' = clock w /\
    trace w' = trace w ++
      omap (fun kv => if idle_at (clock w) w (snd kv)
                      then close_of w (snd kv) else None) items.
Proof.
  intros Hperm Hlive.
  assert (Hin : forall sid a, (sid, a) ∈ items <-> sessions w !! sid = Some a).
  { intros sid a. rewrite Hperm. apply elem_of_map_to_list. }
  assert (Hnd : NoDup (fst <$> items)).
  { rewrite Hperm. apply NoDup_fst_map_to_list. }
  set (p := fun kv : string * addr => idle_at (clock w) w (snd kv)).
  assert (Hitems : Forall (fun kv => is_Some (heap w !! snd kv)) items).
  { apply Forall_forall. intros [sid a] Hkv. apply (Hlive sid). by apply Hin. }
  assert (Hmem : forall sid, sid ∈ (fst <$> List.filter p items) <->
                             exists a, sessions w !! sid = Some a /\ p (sid, a) = true).
  { intros sid. rewrite list_elem_of_fmap. split.
    - intros ([sid' a] & -> & Hf). apply list_elem_of_In, List.filter_In in Hf as [Hf Hp].
      exists a. split; [|done]. apply Hin. by apply list_elem_of_In.
    - intros (a & Ha & Hp). exists (sid, a). split; [done|].
      apply list_elem_of_In, List.filter_In. split; [|done].
      apply list_elem_of_In. by apply Hin. }
  destruct (reap_run (fst <$> List.filter p items) w) as (w' & Hrun & Hh & Hc & Hlook & Htr).
  { by apply NoDup_fst_filter. }
  { apply Forall_forall. intros sid Hsid. apply Hmem in Hsid as (a & Ha & _).
    exists a. split; [done|]. by apply (Hlive sid). }
  exists w'. split; [|split; [|split; [|split; [done|split; [done|]]]]].
  - unfold cleanup_sessions_turn. unfold mbind, M_bind, time_time.
    rewrite (to_remove_run _ _ _ Hitems). exact Hrun.
  - intros sid. rewrite Hlook. destruct (sessions w !! sid) as [a|] eqn:Ha.
    + change (idle_at (clock w) w a) with (p (sid, a)).
      destruct (p (sid, a)) eqn:Hp.
      * rewrite bool_decide_eq_true_2; [done|]. apply Hmem. by exists a.
      * rewrite bool_decide_eq_false_2; [done|]. intros Hsid.
        apply Hmem in Hsid as (a' & Ha' & Hp'). congruence.
    + by destruct (bool_decide _).
  - intros a s Hs. unfold idle_at. rewrite Hs. apply float_elapsed_gt_timeout.
  - rewrite Htr. f_equal.
    assert (Hall : forall kv, kv ∈ items -> sessions w !! fst kv = Some (snd kv)).
    { intros [sid a] Hkv. by apply Hin. }
    clear -Hall. induction items as [|kv items IH]; [done|].
    assert (Hkv : sessions w !! fst kv = Some (snd kv))
      by (apply Hall, list_elem_of_here).
    assert (IH' := IH (fun x Hx => Hall x (list_elem_of_further _ _ _ Hx))).
    change (omap ?f (kv :: items))
      with (match f kv with Some y => y :: omap f items | None => omap f items end).
    cbv beta. cbn [List.filter].
    change (idle_at (clock w) w (snd kv)) with (p kv).
    destruct (p kv); [|exact IH'].
    cbn [fmap list_fmap].
    change (omap ?f (fst kv :: ?l))
      with (match f (fst kv) with Some y => y :: omap f l | None => omap f l end).
    cbv beta. rewrite Hkv. cbn [mbind option_bind]. by rewrite IH'.
Qed.

(** In the world of two sessions the clock reads the float 600.1; the
    first session was last active at time 0 and the second at the float
    0.1. *)
Lemma cleanup_removes_idle_sessions_witness :
  exists w',
    cleanup_sessions_turn [(demo_token, 0%nat); (other_token, 1%nat)] world_two
    = (Ok tt, w') /\
    (forall sid,
       sessions w' !! sid =
       match sessions world_two !! sid with
       | Some a => if idle_at (clock world_two) world_two a then None else Some a
       | None => None
       end) /\
    (forall a s,
       heap world_two !! a = Some s ->
       idle_at (clock world_two) world_two a = true <->
       (600 + (1 # 17592186044416) < clock world_two - last_active s)%Q) /\
    heap w' = heap world_two /\
    clock w' = clock world_two /\
    trace w' = trace world_two ++
      omap (fun kv => if idle_at (clock world_two) world_two (snd kv)
                      then close_of world_two (snd kv) else None)
        [(demo_token, 0%nat); (other_token, 1%nat)].
Proof.
  apply (cleanup_removes_idle_sessions
           [(demo_token, 0%nat); (other_token, 1%nat)] world_two).
  - vm_compute. reflexivity.
  - intros sid a Ha. apply elem_of_map_to_list in Ha.
    vm_compute in Ha. apply elem_of_cons in Ha as [Ha|Ha].
    + injection Ha as -> ->. by eexists.
    + apply elem_of_cons in Ha as [Ha|Ha]; [|by apply not_elem_of_nil in Ha].
      injection Ha as -> ->. by eexists.
Defined.

(** That sweep removes the first session and closes its upstream
    writer.  It keeps the second, which has been idle for more than 600
    seconds by the exact difference of the two readings, but for the
    float 600 by [now - last_active]. *)
Example cleanup_keeps_session_at_rounded_timeout :
  cleanup_sessions_turn [(demo_token, 0%nat); (other_token, 1%nat)] world_two
  = (Ok tt, world_swept) /\
  sessions world_swept !! demo_token = None /\
  sessions world_swept !! other_token = Some 1%nat /\
  trace world_swept = trace world_two ++ [MudClose 7] /\
  (last_active <$> heap world_two !! 1%nat) = Some float_0_1 /\
  (600 < clock world_two - float_0_1)%Q.
Proof. repeat split; by_computation. Qed.
